(** * pybinding cppcore: KPM strategy, system construction and SIMD loop splitting

    A shallow embedding of
    - [cppcore/include/support/simd.hpp]   ([split_loop], [split_loop_t::for_each]),
    - [cppcore/src/system/System.cpp]      ([System::System], [detail::populate_system], ...),
    - [cppcore/src/kpm/Strategy.cpp]       ([StrategyTemplate]),
    and the properties of these functions. *)

From Stdlib Require Import ZArith List Bool Lia String.
From stdpp Require Import base list.
Import ListNotations.

Local Open Scope Z_scope.

(** ** C++ [int] and [std::uintptr_t] *)

Module Int.

Definition INT_MIN : Z := - 2 ^ 31.
Definition INT_MAX : Z := 2 ^ 31 - 1.

(** Two's complement wrap-around of a 32-bit [int]. *)
Definition wrap (z : Z) : Z := (z + 2 ^ 31) mod 2 ^ 32 - 2 ^ 31.

Definition in_range (z : Z) : Prop := INT_MIN <= z <= INT_MAX.

Definition add (a b : Z) : Z := wrap (a + b).
Definition sub (a b : Z) : Z := wrap (a - b).

(** [a % b] of C++: the remainder of the division truncated towards zero. *)
Definition rem (a b : Z) : Z := Z.rem a b.

End Int.

(** ** support/simd.hpp *)

Module Simd.

(** [detail::basic_traits::align_bytes] *)
Definition align_bytes : Z := 16.

(** A pointer is its address, a [std::uintptr_t]. *)
Definition uintptr (z : Z) : Z := z mod 2 ^ 64.

(** [p + i] for a [scalar_t const* p]: the address moves by [i * sizeof(scalar_t)]. *)
Definition ptr_add (sizeof_scalar p i : Z) : Z := uintptr (p + i * sizeof_scalar).

(** [is_aligned<bytes>(p)]: [reinterpret_cast<std::uintptr_t>(p) % bytes == 0]. *)
Definition is_aligned (bytes p : Z) : bool := uintptr p mod bytes =? 0.

(** [split_loop_t<N>]; [step] is the template argument [N]. *)
Record split_loop_t : Type := Build_split_loop_t {
  step : Z;
  start : Z;
  peel_end : Z;
  vec_end : Z;
  end_ : Z
}.

(** [while (!is_aligned<bytes>(p + peel_end) && peel_end < end) ++peel_end;] *)
Fixpoint peel_loop (fuel : nat) (sizeof_scalar p peel_end end_ : Z) : option Z :=
  match fuel with
  | O => None
  | S fuel' =>
      if negb (is_aligned align_bytes (ptr_add sizeof_scalar p peel_end)) && (peel_end <? end_)
      then peel_loop fuel' sizeof_scalar p (Int.add peel_end 1) end_
      else Some peel_end
  end.

(** [while ((vec_end - peel_end) % step != 0) --vec_end;] *)
Fixpoint vec_loop (fuel : nat) (step peel_end vec_end : Z) : option Z :=
  match fuel with
  | O => None
  | S fuel' =>
      if negb (Int.rem (Int.sub vec_end peel_end) step =? 0)
      then vec_loop fuel' step peel_end (Int.sub vec_end 1)
      else Some vec_end
  end.

(** How many times the second loop still decrements when the wrapped
    difference is [d]: down to the multiple of [step] below [d], or, when
    there is none above [INT_MIN], around to the one below [INT_MAX]. *)
Definition decrements (step d : Z) : Z :=
  if Int.INT_MIN <=? d - d mod step
  then d mod step
  else d - Int.INT_MIN + 1 + Int.INT_MAX mod step.

(** [split_loop<scalar_t, step>(p, start, end)].  The first loop tests its
    condition at most [end - start + 1] times, the second one at most
    [2 * step] times (see [decrements]); [None] stands for a loop that is
    still running after that. *)
Definition split_loop (sizeof_scalar step p start end_ : Z) : option split_loop_t :=
  match peel_loop (S (Z.to_nat (end_ - start))) sizeof_scalar p start end_ with
  | None => None
  | Some peel_end =>
      match vec_loop (S (Z.to_nat (2 * step))) step peel_end end_ with
      | None => None
      | Some vec_end => Some (Build_split_loop_t step start peel_end vec_end end_)
      end
  end.

(** The two lambdas handed to [for_each] are observed through the calls made to them. *)
Inductive call : Type :=
| fn_scalar (i : Z)
| fn_vector (i : Z).

(** [for (auto i = lo; i < hi; ++i) fn_scalar(i);] *)
Fixpoint scalar_loop (fuel : nat) (i hi : Z) : option (list call) :=
  match fuel with
  | O => None
  | S fuel' =>
      if i <? hi
      then option_map (cons (fn_scalar i)) (scalar_loop fuel' (Int.add i 1) hi)
      else Some []
  end.

(** [for (auto i = lo; i < hi; i += step) fn_vector(i);] *)
Fixpoint vector_loop (fuel : nat) (step i hi : Z) : option (list call) :=
  match fuel with
  | O => None
  | S fuel' =>
      if i <? hi
      then option_map (cons (fn_vector i)) (vector_loop fuel' step (Int.add i step) hi)
      else Some []
  end.

(** [split_loop_t::for_each(fn_scalar, fn_vector)]: the calls in program order. *)
Definition for_each (s : split_loop_t) : option (list call) :=
  match scalar_loop (S (Z.to_nat (peel_end s - start s))) (start s) (peel_end s) with
  | None => None
  | Some peel =>
      match vector_loop (S (Z.to_nat (vec_end s - peel_end s))) (step s) (peel_end s) (vec_end s) with
      | None => None
      | Some vec =>
          match scalar_loop (S (Z.to_nat (end_ s - vec_end s))) (vec_end s) (end_ s) with
          | None => None
          | Some remainder => Some (peel ++ vec ++ remainder)
          end
      end
  end.

(** The integers [lo, lo + 1, ..., lo + n - 1]. *)
Fixpoint zrange (lo : Z) (n : nat) : list Z :=
  match n with
  | O => []
  | S n' => lo :: zrange (lo + 1) n'
  end.

(** The indices from [lo] (included) to [hi] (excluded). *)
Definition interval (lo hi : Z) : list Z := zrange lo (Z.to_nat (hi - lo)).

(** The array indices a call works on: the scalar body handles [i], the vector
    body handles the [step] elements that start at [i]. *)
Definition touched (step : Z) (c : call) : list Z :=
  match c with
  | fn_scalar i => [i]
  | fn_vector i => zrange i (Z.to_nat step)
  end.

(** The starts of the vector blocks: [lo, lo + step, ...] , [n] of them. *)
Fixpoint strides (step lo : Z) (n : nat) : list Z :=
  match n with
  | O => []
  | S n' => lo :: strides step (lo + step) n'
  end.

End Simd.

(** ** C++ exceptions *)

Module Cpp.

(** The exception classes the sources throw, and a failed [assert]. *)
Inductive exception : Type :=
| runtime_error (what : string)
| invalid_argument (what : string)
| assertion_failure (expr : string).

(** The outcome of a call that may throw. *)
Inductive result (A : Type) : Type :=
| Ok (a : A)
| Throw (e : exception).

Arguments Ok {A} a.
Arguments Throw {A} e.

Definition bind {A B : Type} (r : result A) (k : A -> result B) : result B :=
  match r with
  | Ok a => k a
  | Throw e => Throw e
  end.

(** Run [step] over the elements of a range, leaving at the first exception. *)
Fixpoint for_range {A S : Type} (step : S -> A -> result S) (l : list A) (s : S) : result S :=
  match l with
  | [] => Ok s
  | a :: l' => bind (step s a) (for_range step l')
  end.

End Cpp.

Notation "'let*' x ':=' r 'in' k" := (Cpp.bind r (fun x => k))
  (at level 10, x name, r at level 100, k at level 200).

(** ** system/System.cpp *)

Module Sys.
Import Cpp.

(** The classes [System] is built from (Lattice.hpp, system/Foundation.hpp,
    system/Symmetry.hpp, system/CompressedSublattices.hpp,
    system/HoppingBlocks.hpp, system/Generators.hpp): their types are kept
    abstract, and each member function the constructor calls is a field. *)
Class Collaborators : Type := {
  Lattice : Type;
  Cartesian : Type;
  CompressedSublattices : Type;
  HoppingBlocks : Type;
  HopNameMap : Type;
  SubNameMap : Type;
  Sublattices : Type;
  Foundation : Type;
  Site : Type;
  TranslationalSymmetry : Type;
  SliceIndex : Type;
  Index3D : Type;
  HoppingGenerator : Type;

  (** the content of a coefficient that [resize] allocated and nothing wrote yet *)
  unset_position : Cartesian;

  (** [Lattice] *)
  hop_name_map : Lattice -> HopNameMap;
  sub_name_map : Lattice -> SubNameMap;
  (** [lattice.hopping_family(name).family_id]; the name may be unknown *)
  hopping_family_id : Lattice -> string -> result Z;

  (** [Foundation]: [get_lattice()], [get_finalized_indices().size()],
      [finalized_indices[site]], [max_hoppings_per_family()], the sites in
      iteration order, and the sites of a slice *)
  get_lattice : Foundation -> Lattice;
  finalized_size : Foundation -> nat;
  finalized_index : Foundation -> Site -> Z;
  max_hoppings_per_family : Foundation -> list Z;
  sites : Foundation -> list Site;
  slice : Foundation -> SliceIndex -> list Site;

  (** [Site] *)
  get_position : Site -> Cartesian;
  get_alias_id : Site -> Z;
  get_norb : Site -> Z;
  shifted : Site -> Index3D -> Site;
  (** the (neighbor, hopping family id, is_conjugate) triples that
      [site.for_each_neighbor] visits, in order *)
  neighbors : Foundation -> Site -> list (Site * Z * bool);

  (** [CompressedSublattices] *)
  cs_empty : CompressedSublattices;
  cs_add : Z -> Z -> CompressedSublattices -> CompressedSublattices;
  cs_verify : CompressedSublattices -> nat -> result unit;
  decompressed : CompressedSublattices -> Sublattices;

  (** [HoppingBlocks] *)
  hb_empty : HoppingBlocks;
  hb_make : nat -> HopNameMap -> HoppingBlocks;
  hb_reserve : list Z -> HoppingBlocks -> HoppingBlocks;
  hb_add : Z -> Z -> Z -> HoppingBlocks -> HoppingBlocks;
  hb_append : Z -> list Z -> list Z -> HoppingBlocks -> HoppingBlocks;
  hb_nnz : HoppingBlocks -> Z;

  (** [TranslationalSymmetry]: [operator bool] and the
      (boundary_slice, shift_index, shift_lenght) of each translation *)
  symmetry_enabled : TranslationalSymmetry -> bool;
  translations : TranslationalSymmetry -> Foundation -> list (SliceIndex * Index3D * Cartesian);

  (** [HoppingGenerator]: [name] and [make], which returns the pairs (from, to) *)
  gen_name : HoppingGenerator -> string;
  gen_make : HoppingGenerator -> list Cartesian -> Sublattices -> SubNameMap -> list Z * list Z
}.

Section System.
Context {K : Collaborators}.

(** [System::Boundary] *)
Record Boundary : Type := Build_Boundary {
  boundary_hopping_blocks : HoppingBlocks;
  shift : Cartesian
}.

(** [struct System]; [positions] holds one entry per site. *)
Record System : Type := Build_System {
  lattice : Lattice;
  positions : list Cartesian;
  compressed_sublattices : CompressedSublattices;
  hopping_blocks : HoppingBlocks;
  boundaries : list Boundary
}.

(** [System::num_sites()]: [positions.size()] *)
Definition num_sites (s : System) : Z := Z.of_nat (length (positions s)).

(** [positions.resize(size)] *)
Definition resize (size : nat) (p : list Cartesian) : list Cartesian :=
  firstn size p ++ repeat unset_position (size - length p).

(** The body of [site.for_each_neighbor] in [populate_system]. *)
Definition add_neighbor (f : Foundation) (index : Z) (hb : HoppingBlocks)
    (n : Site * Z * bool) : HoppingBlocks :=
  let '(neighbor, family_id, is_conjugate) := n in
  let neighbor_index := finalized_index f neighbor in
  if neighbor_index <? 0 then hb
  else if negb is_conjugate then hb_add family_id index neighbor_index hb
  else hb.

(** The body of the loop over the sites in [populate_system].  An index
    beyond the end of [positions] leaves the array as it is. *)
Definition populate_site (f : Foundation) (system : System) (site : Site) : System :=
  let index := finalized_index f site in
  if index <? 0 then system
  else
    {| lattice := lattice system;
       positions := <[Z.to_nat index := get_position site]> (positions system);
       compressed_sublattices :=
         cs_add (get_alias_id site) (get_norb site) (compressed_sublattices system);
       hopping_blocks := fold_left (add_neighbor f index) (neighbors f site) (hopping_blocks system);
       boundaries := boundaries system |}.

(** [detail::populate_system(system, foundation)] *)
Definition populate_system (system : System) (f : Foundation) : result System :=
  let lat := get_lattice f in
  let size := finalized_size f in
  let system1 :=
    {| lattice := lattice system;
       positions := resize size (positions system);
       compressed_sublattices := compressed_sublattices system;
       hopping_blocks := hb_reserve (max_hoppings_per_family f) (hb_make size (hop_name_map lat));
       boundaries := boundaries system |} in
  let system2 := fold_left (populate_site f) (sites f) system1 in
  let* _ := cs_verify (compressed_sublattices system2) size in
  Ok system2.

(** The body of [shifted_site.for_each_neighbor] in [populate_boundaries]. *)
Definition add_boundary_neighbor (f : Foundation) (index : Z) (hb : HoppingBlocks)
    (n : Site * Z * bool) : HoppingBlocks :=
  let '(neighbor, family_id, _) := n in
  let neighbor_index := finalized_index f neighbor in
  if neighbor_index <? 0 then hb
  else hb_add family_id index neighbor_index hb.

(** The body of the loop over the boundary slice in [populate_boundaries]. *)
Definition add_boundary_site (f : Foundation) (shift_index : Index3D) (hb : HoppingBlocks)
    (site : Site) : HoppingBlocks :=
  let index := finalized_index f site in
  if index <? 0 then hb
  else fold_left (add_boundary_neighbor f index) (neighbors f (shifted site shift_index)) hb.

(** The body of the loop over the translations in [populate_boundaries]. *)
Definition add_translation (f : Foundation) (system : System)
    (t : SliceIndex * Index3D * Cartesian) : System :=
  let '(boundary_slice, shift_index, shift_lenght) := t in
  let size := finalized_size f in
  let hb := fold_left (add_boundary_site f shift_index) (slice f boundary_slice)
                      (hb_make size (hop_name_map (get_lattice f))) in
  if 0 <? hb_nnz hb
  then {| lattice := lattice system;
          positions := positions system;
          compressed_sublattices := compressed_sublattices system;
          hopping_blocks := hopping_blocks system;
          boundaries := boundaries system ++ [Build_Boundary hb shift_lenght] |}
  else system.

(** [detail::populate_boundaries(system, foundation, symmetry)] *)
Definition populate_boundaries (system : System) (f : Foundation)
    (symmetry : TranslationalSymmetry) : System :=
  fold_left (add_translation f) (translations symmetry f) system.

(** [detail::add_extra_hoppings(system, gen)] *)
Definition add_extra_hoppings (system : System) (gen : HoppingGenerator) : result System :=
  let lat := lattice system in
  let sublattices := decompressed (compressed_sublattices system) in
  let* family_id := hopping_family_id lat (gen_name gen) in
  let pairs := gen_make gen (positions system) sublattices (sub_name_map lat) in
  Ok {| lattice := lattice system;
        positions := positions system;
        compressed_sublattices := compressed_sublattices system;
        hopping_blocks := hb_append family_id (fst pairs) (snd pairs) (hopping_blocks system);
        boundaries := boundaries system |}.

(** [System::System(Lattice const& lattice)] (system/System.hpp): the lattice
    alone, every other member empty. *)
Definition System_of_lattice (l : Lattice) : System :=
  {| lattice := l;
     positions := [];
     compressed_sublattices := cs_empty;
     hopping_blocks := hb_empty;
     boundaries := [] |}.

(** [System::System(foundation, symmetry, hopping_generators)] up to the last
    statement: the members as they are when the number of sites is tested. *)
Definition System_populated (f : Foundation) (symmetry : TranslationalSymmetry)
    (hopping_generators : list HoppingGenerator) : result System :=
  let this := System_of_lattice (get_lattice f) in
  let* this := populate_system this f in
  let this := if symmetry_enabled symmetry then populate_boundaries this f symmetry else this in
  for_range add_extra_hoppings hopping_generators this.

(** [System::System(foundation, symmetry, hopping_generators)] *)
Definition System_new (f : Foundation) (symmetry : TranslationalSymmetry)
    (hopping_generators : list HoppingGenerator) : result System :=
  let* this := System_populated f symmetry hopping_generators in
  if num_sites this =? 0
  then Throw (runtime_error "Impossible system: 0 sites")
  else Ok this.

End System.

End Sys.

(** ** kpm/Strategy.cpp *)

Module Kpm.
Import Cpp.

(** What [StrategyTemplate<scalar_t>] is instantiated over and what it calls
    (kpm/Strategy.hpp, kpm/Bounds.hpp, kpm/OptimizedHamiltonian.hpp,
    kpm/Moments.hpp, kpm/starters.hpp, kpm/Kernel.hpp, kpm/reconstruct.hpp,
    Hamiltonian.hpp): the numeric types and the collaborating classes are kept
    abstract, and each function the strategy calls is a field.  A member
    function that changes its object returns the object's new value. *)
Class Collaborators : Type := {
  (** the numbers: [scalar_t], [real_t = num::get_real_t<scalar_t>], [double],
      [std::complex<double>], and the type of the energies and the precision
      in [Config] *)
  scalar_t : Type;
  real_t : Type;
  double : Type;
  complex_double : Type;
  config_real : Type;

  (** [scalar_t{0}], [+], [/ real_t], [.real()] and [static_cast<real_t>(int)] *)
  scalar_zero : scalar_t;
  scalar_add : scalar_t -> scalar_t -> scalar_t;
  scalar_div : scalar_t -> real_t -> scalar_t;
  scalar_real : scalar_t -> real_t;
  real_of_int : Z -> real_t;
  (** [==] and [>] on the energies of [Config] *)
  config_real_eq : config_real -> config_real -> bool;
  config_real_gt : config_real -> config_real -> bool;
  (** [broadening / scale.a] *)
  double_div_real : double -> real_t -> double;

  (** [SparseMatrixX<scalar_t>]; a [SparseMatrixRC<scalar_t>] is a shared
      pointer to a constant one and stands for the matrix it points to *)
  SparseMatrixX : Type;
  (** [Hamiltonian], [ham::is<scalar_t>] and [ham::get_shared_ptr<scalar_t>] *)
  Hamiltonian : Type;
  ham_is : Hamiltonian -> bool;
  ham_get_shared_ptr : Hamiltonian -> SparseMatrixX;

  (** the members of [Config] that carry no structure here *)
  Kernel : Type;
  MatrixFormat : Type;
  AlgorithmOptions : Type;
  (** [kernel.required_num_moments(x)] and [kernel.apply(moments)] *)
  required_num_moments : Kernel -> double -> Z;
  kernel_apply : Kernel -> list scalar_t -> list scalar_t;

  (** [Scale<real_t>] and its member [a] *)
  Scale : Type;
  scale_a : Scale -> real_t;

  (** [Bounds<scalar_t>]: the constructor from a matrix and a precision, the
      constructor from two energies, and [scaling_factors()] *)
  Bounds : Type;
  Bounds_of_matrix : SparseMatrixX -> config_real -> Bounds;
  Bounds_of_range : config_real -> config_real -> Bounds;
  scaling_factors : Bounds -> Scale * Bounds;

  (** [Chrono] with the clock readings [tic()] and [toc()] take *)
  Chrono : Type;
  time_point : Type;
  tic : time_point -> Chrono -> Chrono;
  toc : time_point -> Chrono -> Chrono;
  (** the members of [Stats] other than [multiplier] and [moments_timer] *)
  StatsCounters : Type;

  (** [DiagonalMoments<scalar_t>] and [OffDiagonalMoments<scalar_t>] with
      their constructors and [get()] *)
  DiagonalMoments : Type;
  DiagonalMoments_new : Z -> DiagonalMoments;
  diagonal_get : DiagonalMoments -> list scalar_t;
  OffDiagonalMoments : Type;
  offdiagonal_get : OffDiagonalMoments -> list (list scalar_t);

  (** starter vectors and [std::mt19937] *)
  Starter : Type;
  mt19937 : Type;
  mt19937_default : mt19937
}.

Section Strategy.
Context {K : Collaborators}.

(** [ArrayX<scalar_t>], [ArrayX<real_t>], [ArrayXd], [ArrayXcd] *)
Definition ArrayX : Type := list scalar_t.
Definition ArrayXr : Type := list real_t.
Definition ArrayXd : Type := list double.
Definition ArrayXcd : Type := list complex_double.

(** [a += b], coefficient by coefficient (the arrays have the same size). *)
Fixpoint array_add (a b : ArrayX) : ArrayX :=
  match a, b with
  | x :: a', y :: b' => scalar_add x y :: array_add a' b'
  | _, _ => []
  end.

(** [a /= r] *)
Definition array_div (a : ArrayX) (r : real_t) : ArrayX :=
  map (fun x => scalar_div x r) a.

(** [a.real()] *)
Definition array_real (a : ArrayX) : ArrayXr := map scalar_real a.


(** [AlgorithmConfig] (declared outside the sources): [optimal_size], which
    [dos] assigns, and the rest of it. *)
Record AlgorithmConfig : Type := Build_AlgorithmConfig {
  optimal_size : bool;
  options : AlgorithmOptions
}.

(** [Config] (declared outside the sources): the members [Strategy.cpp] reads. *)
Record Config : Type := Build_Config {
  min_energy : config_real;
  max_energy : config_real;
  kernel : Kernel;
  matrix_format : MatrixFormat;
  algorithm : AlgorithmConfig;
  lanczos_precision : config_real;
  num_random : Z
}.

(** [Stats] (declared outside the sources): the two members [Strategy.cpp]
    names, and the rest of it. *)
Record Stats : Type := Build_Stats {
  multiplier : Z;
  moments_timer : Chrono;
  counters : StatsCounters
}.

(** [Indices] (declared outside the sources): a row and the columns asked
    for.  [{index, index}] is [Indices_pair], [{row, cols}] is [Build_Indices]. *)
Record Indices : Type := Build_Indices {
  row : Z;
  cols : list Z
}.

Definition Indices_pair (i j : Z) : Indices := Build_Indices i [j].

End Strategy.

(** [OptimizedHamiltonian<scalar_t>] and the free functions of the moment
    computation, over the types above. *)
Class Engine {K : Collaborators} : Type := {
  OptimizedHamiltonian : Type;
  (** the constructor: matrix, format, [algorithm.reorder()] *)
  OptimizedHamiltonian_new : SparseMatrixX -> MatrixFormat -> bool -> OptimizedHamiltonian;
  reorder : AlgorithmConfig -> bool;
  optimize_for : Indices -> Scale -> OptimizedHamiltonian -> OptimizedHamiltonian;
  populate_stats : OptimizedHamiltonian -> Stats -> Z -> AlgorithmConfig -> Stats;
  (** a default-constructed [Stats] *)
  Stats_default : Stats;
  idx : OptimizedHamiltonian -> Indices;
  is_diagonal : Indices -> bool;

  OffDiagonalMoments_new : Z -> Indices -> OffDiagonalMoments;
  exval_starter : OptimizedHamiltonian -> Starter;
  random_starter : OptimizedHamiltonian -> mt19937 -> Starter * mt19937;
  (** [compute(moments, starter, oh, algorithm)], for each kind of moments *)
  compute : DiagonalMoments -> Starter -> OptimizedHamiltonian -> AlgorithmConfig -> DiagonalMoments;
  compute_offdiagonal :
    OffDiagonalMoments -> Starter -> OptimizedHamiltonian -> AlgorithmConfig -> OffDiagonalMoments;

  reconstruct : ArrayXr -> ArrayXd -> Scale -> ArrayXd;
  reconstruct_greens : ArrayX -> ArrayXd -> Scale -> ArrayXcd
}.

Section StrategyTemplate.
Context {K : Collaborators} {E : Engine}.

(** The data members of [StrategyTemplate<scalar_t>]. *)
Record Strategy : Type := Build_Strategy {
  hamiltonian : SparseMatrixX;
  config : Config;
  bounds : Bounds;
  optimized_hamiltonian : OptimizedHamiltonian;
  stats : Stats
}.

(** [reset_bounds(hamiltonian, config)] *)
Definition reset_bounds (h : SparseMatrixX) (c : Config) : Bounds :=
  if config_real_eq (min_energy c) (max_energy c)
  then Bounds_of_matrix h (lanczos_precision c)
  else Bounds_of_range (min_energy c) (max_energy c).

(** [StrategyTemplate::StrategyTemplate(h, config)]: the members are
    initialised, then the body tests the range. *)
Definition StrategyTemplate_new (h : SparseMatrixX) (c : Config) : result Strategy :=
  let this := {| hamiltonian := h;
                 config := c;
                 bounds := reset_bounds h c;
                 optimized_hamiltonian :=
                   OptimizedHamiltonian_new h (matrix_format c) (reorder (algorithm c));
                 stats := Stats_default |} in
  if config_real_gt (min_energy c) (max_energy c)
  then Throw (invalid_argument "KPM: Invalid energy range specified (min > max).")
  else Ok this.

(** [StrategyTemplate::change_hamiltonian(h)] *)
Definition change_hamiltonian (this : Strategy) (h : Hamiltonian) : bool * Strategy :=
  if negb (ham_is h) then (false, this)
  else
    let hamiltonian' := ham_get_shared_ptr h in
    let c := config this in
    (true,
     {| hamiltonian := hamiltonian';
        config := c;
        bounds := reset_bounds hamiltonian' c;
        optimized_hamiltonian :=
          OptimizedHamiltonian_new hamiltonian' (matrix_format c) (reorder (algorithm c));
        stats := stats this |}).

(** [stats.moments_timer.tic()] and [stats.moments_timer.toc()] *)
Definition stats_tic (t : time_point) (s : Stats) : Stats :=
  {| multiplier := multiplier s; moments_timer := tic t (moments_timer s); counters := counters s |}.
Definition stats_toc (t : time_point) (s : Stats) : Stats :=
  {| multiplier := multiplier s; moments_timer := toc t (moments_timer s); counters := counters s |}.

(** [stats.multiplier = m] *)
Definition set_multiplier (m : Z) (s : Stats) : Stats :=
  {| multiplier := m; moments_timer := moments_timer s; counters := counters s |}.

(** The members of [this] after a query updated the lazily computed bounds,
    the optimized Hamiltonian and the statistics. *)
Definition after_query (this : Strategy) (b : Bounds) (oh : OptimizedHamiltonian) (st : Stats)
    : Strategy :=
  {| hamiltonian := hamiltonian this;
     config := config this;
     bounds := b;
     optimized_hamiltonian := oh;
     stats := st |}.

(** [StrategyTemplate::ldos(index, energy, broadening)]; [t0] and [t1] are the
    clock readings of [tic()] and [toc()]. *)
Definition ldos (this : Strategy) (t0 t1 : time_point)
    (index : Z) (energy : ArrayXd) (broadening : double) : ArrayXd * Strategy :=
  let '(scale, bounds') := scaling_factors (bounds this) in
  let c := config this in
  let num_moments := required_num_moments (kernel c) (double_div_real broadening (scale_a scale)) in
  let oh := optimize_for (Indices_pair index index) scale (optimized_hamiltonian this) in
  let stats1 := populate_stats oh (stats this) num_moments (algorithm c) in
  let moments := DiagonalMoments_new num_moments in
  let stats2 := stats_tic t0 stats1 in
  let moments := compute moments (exval_starter oh) oh (algorithm c) in
  let stats3 := stats_toc t1 stats2 in
  let damped := kernel_apply (kernel c) (diagonal_get moments) in
  (reconstruct (array_real damped) energy scale, after_query this bounds' oh stats3).

(** [StrategyTemplate::greens_vector(row, cols, energy, broadening)] *)
Definition greens_vector (this : Strategy) (t0 t1 : time_point)
    (row : Z) (cols : list Z) (energy : ArrayXd) (broadening : double)
    : result (list ArrayXcd * Strategy) :=
  if match cols with [] => true | _ => false end
  then Throw (assertion_failure "!cols.empty()")
  else
    let '(scale, bounds') := scaling_factors (bounds this) in
    let c := config this in
    let num_moments :=
      required_num_moments (kernel c) (double_div_real broadening (scale_a scale)) in
    let oh := optimize_for (Build_Indices row cols) scale (optimized_hamiltonian this) in
    let stats1 := populate_stats oh (stats this) num_moments (algorithm c) in
    if is_diagonal (idx oh) then
      let moments := DiagonalMoments_new num_moments in
      let stats2 := stats_tic t0 stats1 in
      let moments := compute moments (exval_starter oh) oh (algorithm c) in
      let stats3 := stats_toc t1 stats2 in
      let damped := kernel_apply (kernel c) (diagonal_get moments) in
      Ok ([reconstruct_greens damped energy scale], after_query this bounds' oh stats3)
    else
      let moments_vector := OffDiagonalMoments_new num_moments (idx oh) in
      let stats2 := stats_tic t0 stats1 in
      let moments_vector := compute_offdiagonal moments_vector (exval_starter oh) oh (algorithm c) in
      let stats3 := stats_toc t1 stats2 in
      let damped := map (kernel_apply (kernel c)) (offdiagonal_get moments_vector) in
      Ok (map (fun moments => reconstruct_greens moments energy scale) damped,
          after_query this bounds' oh stats3).

(** [v.front()] of a [std::vector]; an empty vector has none. *)
Definition front {A : Type} (v : list A) : result A :=
  match v with
  | x :: _ => Ok x
  | [] => Throw (assertion_failure "!this->empty()")
  end.

(** [StrategyTemplate::greens(row, col, energy, broadening)] *)
Definition greens (this : Strategy) (t0 t1 : time_point)
    (row col : Z) (energy : ArrayXd) (broadening : double) : result (ArrayXcd * Strategy) :=
  let* r := greens_vector this t0 t1 row [col] energy broadening in
  let* g := front (fst r) in
  Ok (g, snd r).

(** The state of the loop of [dos]: the moments object, the generator and
    the running [total]. *)
Definition dos_state : Type := DiagonalMoments * mt19937 * ArrayX.

(** One pass of [for (auto j = 0; j < config.num_random; ++j)]. *)
Definition dos_pass (oh : OptimizedHamiltonian) (a : AlgorithmConfig) (s : dos_state) : dos_state :=
  let '(moments, generator, total) := s in
  let '(starter, generator) := random_starter oh generator in
  let moments := compute moments starter oh a in
  (moments, generator, array_add total (diagonal_get moments)).

(** The loop: [n] passes ([n] is [config.num_random], no pass when it is not positive). *)
Fixpoint dos_loop (n : nat) (oh : OptimizedHamiltonian) (a : AlgorithmConfig) (s : dos_state)
    : dos_state :=
  match n with
  | O => s
  | S n' => dos_loop n' oh a (dos_pass oh a s)
  end.

(** [StrategyTemplate::dos(energy, broadening)] *)
Definition dos (this : Strategy) (t0 t1 : time_point)
    (energy : ArrayXd) (broadening : double) : ArrayXd * Strategy :=
  let '(scale, bounds') := scaling_factors (bounds this) in
  let c := config this in
  let num_moments := required_num_moments (kernel c) (double_div_real broadening (scale_a scale)) in
  let specialized_algorithm := Build_AlgorithmConfig false (options (algorithm c)) in
  let oh := optimize_for (Indices_pair 0 0) scale (optimized_hamiltonian this) in
  let stats1 := populate_stats oh (stats this) num_moments specialized_algorithm in
  let moments := DiagonalMoments_new num_moments in
  let total := diagonal_get moments in
  let stats2 := set_multiplier (num_random c) stats1 in
  let stats3 := stats_tic t0 stats2 in
  let generator := mt19937_default in
  let '(_, _, total) :=
    dos_loop (Z.to_nat (num_random c)) oh specialized_algorithm (moments, generator, total) in
  let total := array_div total (real_of_int (num_random c)) in
  let stats4 := stats_toc t1 stats3 in
  let damped := kernel_apply (kernel c) total in
  (reconstruct (array_real damped) energy scale, after_query this bounds' oh stats4).

(** *** The quantities the properties speak of *)

(** The requested broadening in rescaled units (divided by the scale factor
    [a] of the bounds), turned into a number of moments by the kernel. *)
Definition rescaled_num_moments (this : Strategy) (broadening : double) : Z :=
  let scale := fst (scaling_factors (bounds this)) in
  required_num_moments (kernel (config this)) (double_div_real broadening (scale_a scale)).

(** [ldos] run with a given number of moments. *)
Definition ldos_with_moments (num_moments : Z) (this : Strategy) (t0 t1 : time_point)
    (index : Z) (energy : ArrayXd) : ArrayXd * Strategy :=
  let '(scale, bounds') := scaling_factors (bounds this) in
  let c := config this in
  let oh := optimize_for (Indices_pair index index) scale (optimized_hamiltonian this) in
  let stats1 := populate_stats oh (stats this) num_moments (algorithm c) in
  let moments := compute (DiagonalMoments_new num_moments) (exval_starter oh) oh (algorithm c) in
  let stats3 := stats_toc t1 (stats_tic t0 stats1) in
  (reconstruct (array_real (kernel_apply (kernel c) (diagonal_get moments))) energy scale,
   after_query this bounds' oh stats3).

(** [greens_vector] run with a given number of moments. *)
Definition greens_vector_with_moments (num_moments : Z) (this : Strategy) (t0 t1 : time_point)
    (row : Z) (cols : list Z) (energy : ArrayXd) : result (list ArrayXcd * Strategy) :=
  match cols with
  | [] => Throw (assertion_failure "!cols.empty()")
  | _ :: _ =>
      let '(scale, bounds') := scaling_factors (bounds this) in
      let c := config this in
      let oh := optimize_for (Build_Indices row cols) scale (optimized_hamiltonian this) in
      let stats1 := populate_stats oh (stats this) num_moments (algorithm c) in
      let stats3 := stats_toc t1 (stats_tic t0 stats1) in
      let all_moments :=
        if is_diagonal (idx oh)
        then [diagonal_get
                (compute (DiagonalMoments_new num_moments) (exval_starter oh) oh (algorithm c))]
        else offdiagonal_get
               (compute_offdiagonal (OffDiagonalMoments_new num_moments (idx oh))
                                    (exval_starter oh) oh (algorithm c)) in
      Ok (map (fun moments => reconstruct_greens (kernel_apply (kernel c) moments) energy scale)
              all_moments,
          after_query this bounds' oh stats3)
  end.

(** The moment arrays of [n] successive random starters: each pass draws its
    starter from the generator the pass before left, and computes into the
    moments object the pass before left. *)
Fixpoint realizations (n : nat) (oh : OptimizedHamiltonian) (a : AlgorithmConfig)
    (moments : DiagonalMoments) (generator : mt19937) : list ArrayX :=
  match n with
  | O => []
  | S n' =>
      let '(starter, generator') := random_starter oh generator in
      let moments' := compute moments starter oh a in
      diagonal_get moments' :: realizations n' oh a moments' generator'
  end.


(** [dos] run with a given number of moments and a given initial state of the generator. *)
Definition dos_with_moments (num_moments : Z) (generator : mt19937) (this : Strategy)
    (t0 t1 : time_point) (energy : ArrayXd) : ArrayXd * Strategy :=
  let '(scale, bounds') := scaling_factors (bounds this) in
  let c := config this in
  let specialized_algorithm := Build_AlgorithmConfig false (options (algorithm c)) in
  let oh := optimize_for (Indices_pair 0 0) scale (optimized_hamiltonian this) in
  let stats1 := populate_stats oh (stats this) num_moments specialized_algorithm in
  let moments := DiagonalMoments_new num_moments in
  let stats4 := stats_toc t1 (stats_tic t0 (set_multiplier (num_random c) stats1)) in
  let total :=
    fold_left array_add
      (realizations (Z.to_nat (num_random c)) oh specialized_algorithm moments generator)
      (diagonal_get moments) in
  (reconstruct (array_real (kernel_apply (kernel c) (array_div total (real_of_int (num_random c)))))
               energy scale,
   after_query this bounds' oh stats4).

(** *** What the strategy relies on in the classes it calls *)

(** Modelled from the spec: kpm/Bounds.hpp is not part of the sources; the
    scale factors are "derived once per operator (or per explicit bounds
    override) and cached until the operator changes": asking again gives the
    same factors and leaves the bounds as they are. *)
Definition scaling_factors_cached : Prop :=
  forall b : Bounds, scaling_factors (snd (scaling_factors b)) = scaling_factors b.

(** Modelled from the spec: kpm/OptimizedHamiltonian.hpp is not part of the
    sources; "calling optimize_for again with identical arguments is a no-op". *)
Definition optimize_for_idempotent : Prop :=
  forall (i : Indices) (scale : Scale) (oh : OptimizedHamiltonian),
    optimize_for i scale (optimize_for i scale oh) = optimize_for i scale oh.

(** Modelled from the spec: kpm/Moments.hpp is not part of the sources; the
    off-diagonal moments are "multiple such sequences (one per column)" of
    the query the Hamiltonian was optimized for. *)
Definition one_sequence_per_column : Prop :=
  forall (n row : Z) (cols : list Z) (scale : Scale) (oh : OptimizedHamiltonian)
         (starter : Starter) (a : AlgorithmConfig),
    let oh' := optimize_for (Build_Indices row cols) scale oh in
    length (offdiagonal_get
              (compute_offdiagonal (OffDiagonalMoments_new n (idx oh')) starter oh' a))
    = length cols.

End StrategyTemplate.

End Kpm.

(** ** support/simd.hpp: gather, addsub, complex_mul, madd_rc *)

Module SimdOps.

Section Registers.
(** [T] is the type of a lane ([float] or [double]) and [zero] the lane with
    all bits clear. *)
Context {T : Type} (zero : T).

(** [__m128]: four 32-bit lanes, lowest first.  [__m128d]: two 64-bit lanes;
    a 64-bit lane is a [double], or two adjacent [float]s, the one at the
    lower address first. *)
Definition m128 : Type := (T * T * T * T)%type.
Definition m128d (L : Type) : Type := (L * L)%type.

(** [_mm_load_ss(p)]: [*p] in the lowest lane, the others cleared. *)
Definition _mm_load_ss (x : T) : m128 := (x, zero, zero, zero).

(** [_mm_unpacklo_ps(a, b)]: the two low lanes of [a] and [b], interleaved. *)
Definition _mm_unpacklo_ps (a b : m128) : m128 :=
  let '(a0, a1, _, _) := a in
  let '(b0, b1, _, _) := b in
  (a0, b0, a1, b1).

(** [_mm_load_sd(p)]: [*p] in the low lane, the high lane cleared. *)
Definition _mm_load_sd {L : Type} (zero64 x : L) : m128d L := (x, zero64).

(** [_mm_loadh_pd(a, p)]: the low lane of [a], [*p] in the high lane. *)
Definition _mm_loadh_pd {L : Type} (a : m128d L) (x : L) : m128d L := (fst a, x).

(** [_mm_load_pd(p)]: [p[0]] and [p[1]]. *)
Definition _mm_load_pd {L : Type} (x y : L) : m128d L := (x, y).

(** [_mm_castpd_ps(v)]: the same bits as four 32-bit lanes. *)
Definition _mm_castpd_ps (v : m128d (T * T)) : m128 :=
  let '((x0, x1), (y0, y1)) := v in (x0, x1, y0, y1).

(** [data] is the array a pointer points into, by element; [indices] the
    array of indices; a [std::complex] is its real and imaginary part, in
    this order. *)

(** [Gather<float32x4>::call(float const* data, Index const* indices)] *)
Definition Gather_float32x4 (data : Z -> T) (indices : Z -> Z) : m128 :=
  let a := _mm_load_ss (data (indices 0)) in
  let b := _mm_load_ss (data (indices 1)) in
  let c := _mm_load_ss (data (indices 2)) in
  let d := _mm_load_ss (data (indices 3)) in
  let ac := _mm_unpacklo_ps a c in
  let bd := _mm_unpacklo_ps b d in
  _mm_unpacklo_ps ac bd.

(** [Gather<float32x4>::call(std::complex<float> const* data, Index const* indices)] *)
Definition Gather_float32x4_complex (data : Z -> T * T) (indices : Z -> Z) : m128 :=
  let low := _mm_load_sd (zero, zero) (data (indices 0)) in
  let vec := _mm_loadh_pd low (data (indices 1)) in
  _mm_castpd_ps vec.

(** [Gather<float64x2>::call(double const* data, Index const* indices)] *)
Definition Gather_float64x2 (data : Z -> T) (indices : Z -> Z) : m128d T :=
  let low := _mm_load_sd zero (data (indices 0)) in
  _mm_loadh_pd low (data (indices 1)).

(** [Gather<float64x2>::call(std::complex<double> const* data, Index const* indices)] *)
Definition Gather_float64x2_complex (data : Z -> T * T) (indices : Z -> Z) : m128d T :=
  _mm_load_pd (fst (data (indices 0))) (snd (data (indices 0))).

(** The lanes of a register, lowest first. *)
Definition lanes (v : m128) : list T := let '(x0, x1, x2, x3) := v in [x0; x1; x2; x3].
Definition lanes64 (v : m128d T) : list T := [fst v; snd v].

(** [Gather<V<N, void>>::call(data, indices)]: the loop
    [for (i = 0u; i < Vec::vec_length; ++i) r.vec(i) = Gather<BaseVec>::call(data, indices + i * index_step)],
    from [i] on, [n] base vectors being left. *)
Fixpoint Gather_loop {V : Type} (call : (Z -> Z) -> V) (index_step : Z) (n : nat) (i : Z)
    (indices : Z -> Z) : list V :=
  match n with
  | O => []
  | S n' =>
      call (fun k => indices (i * index_step + k))
      :: Gather_loop call index_step n' (i + 1) indices
  end.

(** [index_step = Vec::base_length * element_size / sizeof(Scalar)] *)
Definition index_step (base_length element_size sizeof_scalar : Z) : Z :=
  base_length * element_size / sizeof_scalar.

(** [Gather<float32<N>>::call] for [N = 4 * vec_length] lanes of [float]
    and for [N / 2] [std::complex<float>]. *)
Definition Gather_float32 (vec_length : nat) (data : Z -> T) (indices : Z -> Z) : list m128 :=
  Gather_loop (Gather_float32x4 data) (index_step 4 4 4) vec_length 0 indices.
Definition Gather_float32_complex (vec_length : nat) (data : Z -> T * T) (indices : Z -> Z)
    : list m128 :=
  Gather_loop (Gather_float32x4_complex data) (index_step 4 4 8) vec_length 0 indices.

End Registers.

(** The two vector templates: [float32<N, E>] and [float64<N, E>]. *)
Inductive VecTemplate : Type := float32 | float64.

Section Vectors.
(** The arithmetic of a lane: [+], [-] (unary), [*] and [-] (binary). *)
Context {T : Type} (add : T -> T -> T) (neg : T -> T) (mul : T -> T -> T) (sub : T -> T -> T).

(** A vector [Vec<N, E>] is the list of its [N] lanes. *)
Definition Vec : Type := list T.

(** Lane by lane: [a + b], [a * b] and [simd::neg(a)]. *)
Fixpoint lanewise (op : T -> T -> T) (a b : Vec) : Vec :=
  match a, b with
  | x :: a', y :: b' => op x y :: lanewise op a' b'
  | _, _ => []
  end.
Definition vadd : Vec -> Vec -> Vec := lanewise add.
Definition vmul : Vec -> Vec -> Vec := lanewise mul.
Definition vneg (a : Vec) : Vec := map neg a.

(** [simd::permute2<s0, s1>(a)]: in each pair of lanes, the lanes [s0] and [s1] of the pair. *)
Fixpoint permute2 (s0 s1 : nat) (a : Vec) : Vec :=
  match a with
  | x :: y :: a' => nth s0 [x; y] x :: nth s1 [x; y] x :: permute2 s0 s1 a'
  | _ => []
  end.

(** [simd::shuffle4x2<s0, s1, s2, s3>(a, b)]: in each group of four lanes,
    the lanes picked among the four of [a] (0 to 3) and the four of [b] (4 to 7). *)
Fixpoint shuffle4x2 (s0 s1 s2 s3 : nat) (a b : Vec) : Vec :=
  match a, b with
  | a0 :: a1 :: a2 :: a3 :: a', b0 :: b1 :: b2 :: b3 :: b' =>
      let group := [a0; a1; a2; a3; b0; b1; b2; b3] in
      nth s0 group a0 :: nth s1 group a0 :: nth s2 group a0 :: nth s3 group a0
      :: shuffle4x2 s0 s1 s2 s3 a' b'
  | _, _ => []
  end.

(** [addsub(a, b)], the overload written with [shuffle4x2] *)
Definition addsub (a b : Vec) : Vec :=
  vadd a (shuffle4x2 0 5 2 7 (vneg b) b).

(** [_mm_addsub_ps(a, b)], [_mm_addsub_pd(a, b)], [_mm256_addsub_ps(a, b)] and
    [_mm256_addsub_pd(a, b)]: [a - b] in the even lanes, [a + b] in the odd ones. *)
Fixpoint _mm_addsub (a b : Vec) : Vec :=
  match a, b with
  | a0 :: a1 :: a', b0 :: b1 :: b' => sub a0 b0 :: add a1 b1 :: _mm_addsub a' b'
  | _, _ => []
  end.

(** Whether a call [addsub(a, b)] on vectors [Vec<N, E>] resolves to an
    overload written with an intrinsic: the overloads for [float32<4>] and
    [float64<2>] exist under [SIMDPP_USE_SSE3], those for [float32<8>] and
    [float64<4>] under [SIMDPP_USE_AVX], and they are more specialised than
    the template written with [shuffle4x2]. *)
Definition addsub_is_intrinsic (use_sse3 use_avx : bool) (V : VecTemplate) (N : nat) : bool :=
  match V with
  | float32 => (use_sse3 && Nat.eqb N 4) || (use_avx && Nat.eqb N 8)
  | float64 => (use_sse3 && Nat.eqb N 2) || (use_avx && Nat.eqb N 4)
  end.

(** [addsub(a, b)] as the call resolves for the vectors [V<N, E>] of [a] and [b]. *)
Definition addsub_resolved (use_sse3 use_avx : bool) (V : VecTemplate) (a b : Vec) : Vec :=
  if addsub_is_intrinsic use_sse3 use_avx V (length a) then _mm_addsub a b else addsub a b.

(** [complex_mul(ab, xy)] where [addsub] is the overload written with
    [shuffle4x2]: every instantiation without SSE3 and AVX, and the vectors
    that have no intrinsic overload with them. *)
Definition complex_mul (ab xy : Vec) : Vec :=
  let aa := permute2 0 0 ab in
  let axay := vmul aa xy in
  let bb := permute2 1 1 ab in
  let yx := permute2 1 0 xy in
  let bybx := vmul bb yx in
  addsub axay bybx.

(** [complex_mul(ab, xy)] for vectors [V<N, E>], [addsub] being the
    overload the call resolves to. *)
Definition complex_mul_resolved (use_sse3 use_avx : bool) (V : VecTemplate) (ab xy : Vec) : Vec :=
  let aa := permute2 0 0 ab in
  let axay := vmul aa xy in
  let bb := permute2 1 1 ab in
  let yx := permute2 1 0 xy in
  let bybx := vmul bb yx in
  addsub_resolved use_sse3 use_avx V axay bybx.

(** [madd_rc<scalar_t>(a, b, c)]: [detail::FMADD<scalar_t>::call] for a real
    and for a complex [scalar_t]. *)
Definition madd_rc_real (a b c : Vec) : Vec := vadd (vmul a b) c.
Definition madd_rc_complex (use_sse3 use_avx : bool) (V : VecTemplate) (a b c : Vec) : Vec :=
  vadd (complex_mul_resolved use_sse3 use_avx V a b) c.

(** The lanes of complex numbers stored one after the other, real part first. *)
Definition interleave (l : list (T * T)) : Vec :=
  flat_map (fun z => [fst z; snd z]) l.

(** The product [(a + ib) (x + iy) = (ax - by) + i (ay + bx)] and the
    multiply-add, in the lane arithmetic. *)
Definition complex_product (ab xy : T * T) : T * T :=
  (add (mul (fst ab) (fst xy)) (neg (mul (snd ab) (snd xy))),
   add (mul (fst ab) (snd xy)) (mul (snd ab) (fst xy))).
Definition complex_sum (u v : T * T) : T * T := (add (fst u) (fst v), add (snd u) (snd v)).

(** Lane [2k] of [a] minus lane [2k] of [b], lane [2k + 1] of [a] plus lane [2k + 1] of [b]. *)
Fixpoint alternate (a b : Vec) : Vec :=
  match a, b with
  | a0 :: a1 :: a', b0 :: b1 :: b' => add a0 (neg b0) :: add a1 b1 :: alternate a' b'
  | _, _ => []
  end.

End Vectors.

End SimdOps.

(** ** system/System.cpp: the index and search functions *)

Module SysQuery.
Import Cpp Sys.

(** What a [CompressedSublattices::It] tells about the sublattice it stands
    on (system/CompressedSublattices.hpp is not part of the sources): the
    values of [alias_id()], [num_orbitals()], [sys_start()], [sys_end()],
    [ham_start()] and [ham_size()]. *)
Record SublatticeRange : Type := Build_SublatticeRange {
  alias_id : Z;
  num_orbitals : Z;
  sys_start : Z;
  sys_end : Z;
  ham_start : Z;
  ham_size : Z
}.

(** What [System] needs besides the classes it is built from. *)
Class Geometry {K : Collaborators} : Type := {
  (** the range [compressed_sublattices.begin()] to [compressed_sublattices.end()] *)
  sublattices : CompressedSublattices -> list SublatticeRange;
  (** [lattice[sublattice_name].alias_id]; the name may be unknown *)
  sublattice_alias_id : Lattice -> string -> result Z;
  (** [(a - b).norm()] and [<] on its values *)
  Distance : Type;
  distance : Cartesian -> Cartesian -> Distance;
  distance_lt : Distance -> Distance -> bool
}.

Section Queries.
Context {K : Collaborators} {G : Geometry}.

(** [System::hamiltonian_size()].  [idx_t] is declared outside the sources;
    its arithmetic is that of the integers as long as the size of the
    Hamiltonian is an [idx_t]. *)
Definition hamiltonian_size (system : System) : Z :=
  fold_left (fun result sub => result + ham_size sub)
            (sublattices (compressed_sublattices system)) 0.

(** The loop of [System::to_hamiltonian_index(system_index)] over the sublattices. *)
Fixpoint to_hamiltonian_index_loop (l : list SublatticeRange) (system_index : Z) : result Z :=
  match l with
  | [] => Throw (runtime_error "to_hamiltonian_index: this should never happen")
  | sub :: l' =>
      if (sys_start sub <=? system_index) && (system_index <? sys_end sub)
      then Ok (ham_start sub + (system_index - sys_start sub) * num_orbitals sub)
      else to_hamiltonian_index_loop l' system_index
  end.

(** [System::to_hamiltonian_index(system_index)] *)
Definition to_hamiltonian_index (system : System) (system_index : Z) : result Z :=
  to_hamiltonian_index_loop (sublattices (compressed_sublattices system)) system_index.

(** [positions[i]]; an index outside of the array fails Eigen's assertion. *)
Definition position_at (system : System) (i : Z) : result Cartesian :=
  if i <? 0 then Throw (assertion_failure "index >= 0 && index < size()")
  else match positions system !! Z.to_nat i with
       | Some p => Ok p
       | None => Throw (assertion_failure "index >= 0 && index < size()")
       end.

(** The range [find_nearest] searches: all sites for an empty name, else the
    sites of the first compressed sublattice with the alias of the name. *)
Definition find_nearest_range (system : System) (sublattice_name : string) : result (Z * Z) :=
  match sublattice_name with
  | EmptyString => Ok (0, num_sites system)
  | _ =>
      let* target_id := sublattice_alias_id (lattice system) sublattice_name in
      match List.find (fun sub => alias_id sub =? target_id)
                      (sublattices (compressed_sublattices system)) with
      | None => Throw (runtime_error "System::find_nearest() This should never happen")
      | Some sub => Ok (sys_start sub, sys_end sub)
      end
  end.

(** [for (auto i = range.start + 1; i < range.end; ++i)]: [n] passes from [i]
    on, with the [(nearest_index, min_distance)] reached so far. *)
Fixpoint find_nearest_loop (system : System) (target_position : Cartesian)
    (n : nat) (i : Z) (nearest : Z * Distance) : result (Z * Distance) :=
  match n with
  | O => Ok nearest
  | S n' =>
      let* p := position_at system i in
      let d := distance p target_position in
      find_nearest_loop system target_position n' (i + 1)
        (if distance_lt d (snd nearest) then (i, d) else nearest)
  end.

(** [System::find_nearest(target_position, sublattice_name)] *)
Definition find_nearest (system : System) (target_position : Cartesian)
    (sublattice_name : string) : result Z :=
  let* range := find_nearest_range system sublattice_name in
  let '(range_start, range_end) := range in
  let* first := position_at system range_start in
  let* nearest :=
    find_nearest_loop system target_position (Z.to_nat (range_end - (range_start + 1)))
                      (range_start + 1) (range_start, distance first target_position) in
  Ok (fst nearest).

(** The iterators of a [CompressedSublattices] walk sublattices that follow
    one another: each starts, in the system and in the Hamiltonian, where
    the one before ends, and takes [num_orbitals >= 1] rows of the
    Hamiltonian per site. *)
Fixpoint contiguous (sys ham : Z) (l : list SublatticeRange) : Prop :=
  match l with
  | [] => True
  | sub :: l' =>
      sys_start sub = sys /\ sys <= sys_end sub /\
      ham_start sub = ham /\ 1 <= num_orbitals sub /\
      ham_size sub = (sys_end sub - sys_start sub) * num_orbitals sub /\
      contiguous (sys_end sub) (ham + ham_size sub) l'
  end.

(** Where the last sublattice ends. *)
Fixpoint sites_end (sys : Z) (l : list SublatticeRange) : Z :=
  match l with
  | [] => sys
  | sub :: l' => sites_end (sys_end sub) l'
  end.

(** The state of the search after the sites of [[lo, hi)]: a site of the
    range, with its distance, that no site of the range is nearer than. *)
Definition nearest_of (system : System) (target : Cartesian) (lo hi : Z)
    (nearest : Z * Distance) : Prop :=
  lo <= fst nearest < hi /\
  (exists p, position_at system (fst nearest) = Ok p /\ snd nearest = distance p target) /\
  forall k p, lo <= k < hi -> position_at system k = Ok p ->
              distance_lt (distance p target) (snd nearest) = false.

End Queries.

End SysQuery.

(** The hoppings [populate_system] hands to the hopping blocks. *)
Module SysTrace.
Import Cpp Sys.

Section Trace.
Context {K : Collaborators}.

(** The hoppings [populate_system] adds for a site: towards valid neighbors,
    the conjugate ones left out. *)
Definition kept_hoppings (f : Foundation) (index : Z) (ns : list (Site * Z * bool))
    : list (Z * Z * Z) :=
  flat_map (fun n => let '(neighbor, family_id, is_conjugate) := n in
                     if (finalized_index f neighbor <? 0) || is_conjugate then []
                     else [(family_id, index, finalized_index f neighbor)]) ns.

Definition add_hopping (hb : HoppingBlocks) (h : Z * Z * Z) : HoppingBlocks :=
  let '(family_id, i, j) := h in hb_add family_id i j hb.

(** The hoppings added for a site of the foundation: none for an invalid site. *)
Definition site_hoppings (f : Foundation) (site : Site) : list (Z * Z * Z) :=
  if finalized_index f site <? 0 then []
  else kept_hoppings f (finalized_index f site) (neighbors f site).

End Trace.

End SysTrace.

(** Variants of a strategy that the properties compare. *)
Module KpmViews.
Import Cpp Kpm.

Section Views.
Context {K : Collaborators} {E : Engine}.

(** The strategy with other statistics. *)
Definition with_stats (st : Stats) (this : Strategy) : Strategy :=
  after_query this (bounds this) (optimized_hamiltonian this) st.

(** The value of a call that may throw, without the state it leaves. *)
Definition value_of {A : Type} (r : result (A * Strategy)) : result A :=
  let* v := r in Ok (fst v).

End Views.

End KpmViews.

(** ** Small instances to run the definitions on *)

(** A chain of sites on a line. *)
Module Chain.
Import Cpp.

(** A site of the foundation: its finalized index (negative: not part of the
    system) and its position on the line. *)
Definition site : Type := (Z * Z)%type.

(** The sites one step away from [s]; the hopping towards the left is the
    conjugate of the one towards the right. *)
Definition chain_neighbors (f : list site) (s : site) : list (site * Z * bool) :=
  map (fun n => (n, 0, snd n <? snd s))
      (List.filter (fun n => Z.abs (snd n - snd s) =? 1) f).

Definition chain_verify (cs : list (Z * Z)) (size : nat) : result unit :=
  if Nat.eqb (length cs) size then Ok tt
  else Throw (runtime_error "CompressedSublattices: wrong number of sites").

Definition chain_family (name : string) : result Z :=
  if String.eqb name "t" then Ok 0 else Throw (runtime_error "unknown hopping family").

(** A generator that joins every site to the second next one. *)
Definition next_nearest (positions : list Z) : list Z * list Z :=
  let n := length positions in
  (map Z.of_nat (seq 0 (n - 2)), map Z.of_nat (seq 2 (n - 2))).

Definition collaborators : Sys.Collaborators :=
  {| Sys.Lattice := unit;
     Sys.Cartesian := Z;
     Sys.CompressedSublattices := list (Z * Z);
     Sys.HoppingBlocks := list (Z * Z * Z);
     Sys.HopNameMap := unit;
     Sys.SubNameMap := unit;
     Sys.Sublattices := list Z;
     Sys.Foundation := list site;
     Sys.Site := site;
     Sys.TranslationalSymmetry := bool;
     Sys.SliceIndex := unit;
     Sys.Index3D := Z;
     Sys.HoppingGenerator := string;
     Sys.unset_position := 0;
     Sys.hop_name_map := fun _ => tt;
     Sys.sub_name_map := fun _ => tt;
     Sys.hopping_family_id := fun _ name => chain_family name;
     Sys.get_lattice := fun _ => tt;
     Sys.finalized_size := fun f => length (List.filter (fun s => 0 <=? fst s) f);
     Sys.finalized_index := fun _ s => fst s;
     Sys.max_hoppings_per_family := fun _ => [2];
     Sys.sites := fun f => f;
     Sys.slice := fun f _ => f;
     Sys.get_position := snd;
     Sys.get_alias_id := fun _ => 0;
     Sys.get_norb := fun _ => 1;
     Sys.shifted := fun s k => (fst s, snd s + k);
     Sys.neighbors := chain_neighbors;
     Sys.cs_empty := [];
     Sys.cs_add := fun alias norb cs => cs ++ [(alias, norb)];
     Sys.cs_verify := chain_verify;
     Sys.decompressed := map fst;
     Sys.hb_empty := [];
     Sys.hb_make := fun _ _ => [];
     Sys.hb_reserve := fun _ hb => hb;
     Sys.hb_add := fun family i j hb => hb ++ [(family, i, j)];
     Sys.hb_append := fun family from to hb =>
                        hb ++ map (fun ft => (family, fst ft, snd ft)) (combine from to);
     Sys.hb_nnz := fun hb => Z.of_nat (length hb);
     Sys.symmetry_enabled := fun b => b;
     Sys.translations := fun _ _ => [(tt, 3, 3)];
     Sys.gen_name := fun g => g;
     Sys.gen_make := fun _ positions _ _ => next_nearest positions |}.

(** Three sites in a row, and a foundation none of whose sites is part of the system. *)
Definition three_sites : list site := [(0, 0); (1, 1); (2, 2)].
Definition no_site : list site := [(-1, 0); (-1, 1)].

End Chain.

(** The chain with one sublattice of one orbital per site and distances on the line. *)
Module ChainGeometry.
Import Cpp.

(** One range per entry of the compressed sublattices, [orbitals] each wide. *)
Fixpoint ranges (sys ham : Z) (cs : list (Z * Z)) : list SysQuery.SublatticeRange :=
  match cs with
  | [] => []
  | (alias, orbitals) :: cs' =>
      SysQuery.Build_SublatticeRange alias orbitals sys (sys + 1) ham orbitals
      :: ranges (sys + 1) (ham + orbitals) cs'
  end.

Definition alias_of (name : string) : result Z :=
  if String.eqb name "A" then Ok 0
  else if String.eqb name "B" then Ok 1
  else Throw (runtime_error "There is no sublattice with this name").

Definition geometry : SysQuery.Geometry (K := Chain.collaborators) :=
  @SysQuery.Build_Geometry Chain.collaborators
    (ranges 0 0) (fun _ name => alias_of name) Z (fun a b => Z.abs (a - b)) Z.ltb.

(** The system of three sites at 0, 1 and 2, and a system of two sites with two orbitals each. *)
Definition system3 : Sys.System (K := Chain.collaborators) :=
  Sys.Build_System (K := Chain.collaborators) tt [0; 1; 2] [(0, 1); (0, 1); (0, 1)] [] [].
Definition system2x2 : Sys.System (K := Chain.collaborators) :=
  Sys.Build_System (K := Chain.collaborators) tt [0; 5] [(0, 2); (0, 2)] [] [].

End ChainGeometry.

(** An integer-valued stand-in for the numeric engine: exact Chebyshev
    moments of a dense integer matrix. *)
Module Exact.
Import Cpp.

Definition vector : Type := list Z.
Definition matrix : Type := list (list Z).

Definition dot (u v : vector) : Z :=
  fold_left (fun acc xy => acc + fst xy * snd xy) (combine u v) 0.
Definition matvec (m : matrix) (v : vector) : vector := map (fun r => dot r v) m.
Definition unit_vector (n : nat) (i : Z) : vector :=
  map (fun k => if Z.of_nat k =? i then 1 else 0) (seq 0 n).

(** [<target| T_k(m) |starter>] for [k = 0 .. n - 1], by the three-term recurrence. *)
Fixpoint chebyshev (n : nat) (m : matrix) (target previous current : vector) : list Z :=
  match n with
  | O => []
  | S n' =>
      dot target previous
      :: chebyshev n' m target current
           (map (fun xy => 2 * fst xy - snd xy) (combine (matvec m current) previous))
  end.

Definition moments_of (n : nat) (m : matrix) (target starter : vector) : list Z :=
  chebyshev n m target starter (matvec m starter).

(** The sum of [mu_k T_k(x)]. *)
Fixpoint series (mu : list Z) (x previous current : Z) : Z :=
  match mu with
  | [] => 0
  | c :: mu' => c * previous + series mu' x current (2 * x * current - previous)
  end.

(** A kernel that tapers the moments linearly. *)
Fixpoint taper (n : Z) (mu : list Z) : list Z :=
  match mu with
  | [] => []
  | c :: mu' => n * c :: taper (n - 1) mu'
  end.

(** A linear congruential generator and the signs it draws. *)
Definition lcg (g : Z) : Z := (g * 1103515245 + 12345) mod 2 ^ 31.
Fixpoint signs (n : nat) (g : Z) : vector * Z :=
  match n with
  | O => ([], g)
  | S n' =>
      let g' := lcg g in
      let '(v, g'') := signs n' g' in
      ((if Z.even (g' / 65536) then 1 else -1) :: v, g'')
  end.

(** The largest sum of the absolute values of a row. *)
Definition norm (m : matrix) : Z :=
  fold_left Z.max (map (fun r => fold_left (fun acc x => acc + Z.abs x) r 0) m) 0.

Definition collaborators : Kpm.Collaborators :=
  {| Kpm.scalar_t := Z;
     Kpm.real_t := Z;
     Kpm.double := Z;
     Kpm.complex_double := (Z * Z)%type;
     Kpm.config_real := Z;
     Kpm.scalar_zero := 0;
     Kpm.scalar_add := Z.add;
     Kpm.scalar_div := Z.div;
     Kpm.scalar_real := fun x => x;
     Kpm.real_of_int := fun x => x;
     Kpm.config_real_eq := Z.eqb;
     Kpm.config_real_gt := Z.gtb;
     Kpm.double_div_real := Z.div;
     Kpm.SparseMatrixX := matrix;
     Kpm.Hamiltonian := (matrix + list (list (Z * Z)))%type;
     Kpm.ham_is := fun h => match h with inl _ => true | inr _ => false end;
     Kpm.ham_get_shared_ptr := fun h => match h with inl m => m | inr _ => [] end;
     Kpm.Kernel := Z;
     Kpm.MatrixFormat := unit;
     Kpm.AlgorithmOptions := bool;
     Kpm.required_num_moments := fun lambda x => lambda / x;
     Kpm.kernel_apply := fun _ mu => taper (Z.of_nat (length mu)) mu;
     Kpm.Scale := (Z * Z)%type;
     Kpm.scale_a := fst;
     Kpm.Bounds := (Z * Z)%type;
     Kpm.Bounds_of_matrix := fun m _ => (- norm m, norm m);
     Kpm.Bounds_of_range := fun lo hi => (lo, hi);
     Kpm.scaling_factors := fun b => (((snd b - fst b) / 2, (snd b + fst b) / 2), b);
     Kpm.Chrono := Z;
     Kpm.time_point := Z;
     Kpm.tic := fun t c => c - t;
     Kpm.toc := fun t c => c + t;
     Kpm.StatsCounters := Z;
     Kpm.DiagonalMoments := list Z;
     Kpm.DiagonalMoments_new := fun n => repeat 0 (Z.to_nat n);
     Kpm.diagonal_get := fun mu => mu;
     Kpm.OffDiagonalMoments := list (list Z);
     Kpm.offdiagonal_get := fun mu => mu;
     Kpm.Starter := vector;
     Kpm.mt19937 := Z;
     Kpm.mt19937_default := 5489 |}.

#[local] Existing Instance collaborators.

(** The optimized Hamiltonian: the matrix and the indices it is optimized for. *)
Definition optimized : Type := (matrix * Kpm.Indices)%type.

Definition diagonal (i : Kpm.Indices) : bool :=
  match Kpm.cols i with
  | [c] => Kpm.row i =? c
  | _ => false
  end.

Definition engine : Kpm.Engine :=
  {| Kpm.OptimizedHamiltonian := optimized;
     Kpm.OptimizedHamiltonian_new := fun m _ _ => (m, Kpm.Build_Indices (-1) []);
     Kpm.reorder := fun a => Kpm.options a;
     Kpm.optimize_for := fun i _ oh => (fst oh, i);
     Kpm.populate_stats := fun _ st n _ =>
       Kpm.Build_Stats (Kpm.multiplier st) (Kpm.moments_timer st) (Kpm.counters st + n);
     Kpm.Stats_default := Kpm.Build_Stats 1 0 0;
     Kpm.idx := snd;
     Kpm.is_diagonal := diagonal;
     Kpm.OffDiagonalMoments_new := fun n i => map (fun _ => repeat 0 (Z.to_nat n)) (Kpm.cols i);
     Kpm.exval_starter := fun oh => unit_vector (length (fst oh)) (Kpm.row (snd oh));
     Kpm.random_starter := fun oh g => signs (length (fst oh)) g;
     Kpm.compute := fun mu starter oh _ => moments_of (length mu) (fst oh) starter starter;
     Kpm.compute_offdiagonal := fun mus starter oh _ =>
       map (fun cm => moments_of (length (snd cm)) (fst oh)
                                 (unit_vector (length (fst oh)) (fst cm)) starter)
           (combine (Kpm.cols (snd oh)) mus);
     Kpm.reconstruct := fun mu energy _ => map (fun x => series mu x 1 x) energy;
     Kpm.reconstruct_greens := fun mu energy _ => map (fun x => (series mu x 1 x, 0)) energy |}.

(** A chain of three sites with hopping 1, the configuration with automatic
    bounds and four random starters, and the strategy built from them. *)
Definition chain3 : matrix := [[0; 1; 0]; [1; 0; 1]; [0; 1; 0]].

Definition config_auto : Kpm.Config :=
  Kpm.Build_Config 0 0 12 tt (Kpm.Build_AlgorithmConfig true false) 2 4.

Definition config_range (lo hi : Z) : Kpm.Config :=
  Kpm.Build_Config lo hi 12 tt (Kpm.Build_AlgorithmConfig true false) 2 4.

Definition strategy3 : Kpm.Strategy (E := engine) :=
  Kpm.Build_Strategy (E := engine) chain3 config_auto (-2, 2)
                     (chain3, Kpm.Build_Indices (-1) []) (Kpm.Build_Stats 1 0 0).

End Exact.

(** The chain with a configuration that asks for no random starter. *)
Module ExactEdge.
Import Kpm Exact.
#[local] Existing Instance Exact.collaborators.

Definition strategy_no_random : Strategy (E := engine) :=
  Build_Strategy (E := engine) chain3
    (Build_Config (K := collaborators) 0 0 12 tt
                  (Build_AlgorithmConfig (K := collaborators) true false) 2 0)
    (-2, 2) (chain3, Build_Indices (-1) []) (Build_Stats (K := collaborators) 1 0 0).

End ExactEdge.

(** The integer engine over moments whose storage the constructor does not
    clear: each coefficient of a new [DiagonalMoments] is [fresh]. *)
Module ExactFresh.
Import Cpp Exact.

Definition collaborators (fresh : Z) : Kpm.Collaborators :=
  {| Kpm.scalar_t := Z;
     Kpm.real_t := Z;
     Kpm.double := Z;
     Kpm.complex_double := (Z * Z)%type;
     Kpm.config_real := Z;
     Kpm.scalar_zero := 0;
     Kpm.scalar_add := Z.add;
     Kpm.scalar_div := Z.div;
     Kpm.scalar_real := fun x => x;
     Kpm.real_of_int := fun x => x;
     Kpm.config_real_eq := Z.eqb;
     Kpm.config_real_gt := Z.gtb;
     Kpm.double_div_real := Z.div;
     Kpm.SparseMatrixX := matrix;
     Kpm.Hamiltonian := (matrix + list (list (Z * Z)))%type;
     Kpm.ham_is := fun h => match h with inl _ => true | inr _ => false end;
     Kpm.ham_get_shared_ptr := fun h => match h with inl m => m | inr _ => [] end;
     Kpm.Kernel := Z;
     Kpm.MatrixFormat := unit;
     Kpm.AlgorithmOptions := bool;
     Kpm.required_num_moments := fun lambda x => lambda / x;
     Kpm.kernel_apply := fun _ mu => taper (Z.of_nat (length mu)) mu;
     Kpm.Scale := (Z * Z)%type;
     Kpm.scale_a := fst;
     Kpm.Bounds := (Z * Z)%type;
     Kpm.Bounds_of_matrix := fun m _ => (- norm m, norm m);
     Kpm.Bounds_of_range := fun lo hi => (lo, hi);
     Kpm.scaling_factors := fun b => (((snd b - fst b) / 2, (snd b + fst b) / 2), b);
     Kpm.Chrono := Z;
     Kpm.time_point := Z;
     Kpm.tic := fun t c => c - t;
     Kpm.toc := fun t c => c + t;
     Kpm.StatsCounters := Z;
     Kpm.DiagonalMoments := list Z;
     Kpm.DiagonalMoments_new := fun n => repeat fresh (Z.to_nat n);
     Kpm.diagonal_get := fun mu => mu;
     Kpm.OffDiagonalMoments := list (list Z);
     Kpm.offdiagonal_get := fun mu => mu;
     Kpm.Starter := vector;
     Kpm.mt19937 := Z;
     Kpm.mt19937_default := 5489 |}.

Definition engine (fresh : Z) : Kpm.Engine (K := collaborators fresh) :=
  @Kpm.Build_Engine (collaborators fresh)
    optimized
    (fun m _ _ => (m, Kpm.Build_Indices (-1) []))
    (fun a => Kpm.options a)
    (fun i _ oh => (fst oh, i))
    (fun _ st n _ =>
       Kpm.Build_Stats (K := collaborators fresh)
                       (Kpm.multiplier st) (Kpm.moments_timer st) (Kpm.counters st + n))
    (Kpm.Build_Stats (K := collaborators fresh) 1 0 0)
    snd
    diagonal
    (fun n i => map (fun _ => repeat fresh (Z.to_nat n)) (Kpm.cols i))
    (fun oh => unit_vector (length (fst oh)) (Kpm.row (snd oh)))
    (fun oh g => signs (length (fst oh)) g)
    (fun mu starter oh _ => moments_of (length mu) (fst oh) starter starter)
    (fun mus starter oh _ =>
       map (fun cm => moments_of (length (snd cm)) (fst oh)
                                 (unit_vector (length (fst oh)) (fst cm)) starter)
           (combine (Kpm.cols (snd oh)) mus))
    (fun mu energy _ => map (fun x => series mu x 1 x) energy)
    (fun mu energy _ => map (fun x => (series mu x 1 x, 0)) energy).

(** The chain of three sites with four random starters, as [Exact.strategy3]. *)
Definition strategy3 (fresh : Z) : Kpm.Strategy (E := engine fresh) :=
  Kpm.Build_Strategy (E := engine fresh) chain3
    (Kpm.Build_Config (K := collaborators fresh) 0 0 12 tt
                      (Kpm.Build_AlgorithmConfig (K := collaborators fresh) true false) 2 4)
    (-2, 2) (chain3, Kpm.Build_Indices (-1) []) (Kpm.Build_Stats (K := collaborators fresh) 1 0 0).

End ExactFresh.

(** * Properties *)

(** ** [int] arithmetic without overflow *)

Module IntFacts.

Lemma wrap_small z : Int.in_range z -> Int.wrap z = z.
Proof.
  unfold Int.in_range, Int.INT_MIN, Int.INT_MAX, Int.wrap. intros H.
  rewrite Z.mod_small; lia.
Qed.

Lemma add_small a b : Int.in_range (a + b) -> Int.add a b = a + b.
Proof. apply wrap_small. Qed.

Lemma sub_small a b : Int.in_range (a - b) -> Int.sub a b = a - b.
Proof. apply wrap_small. Qed.

Lemma rem_nonneg a b : 0 <= a -> 0 < b -> Int.rem a b = a mod b.
Proof. intros Ha Hb. unfold Int.rem. apply Z.rem_mod_nonneg; lia. Qed.

(** Going one down from a number that is not a multiple of [m] lowers its residue by one. *)
Lemma mod_pred a m : 0 < m -> a mod m <> 0 -> (a - 1) mod m = a mod m - 1.
Proof.
  intros Hm Hr.
  pose proof (Z.mod_pos_bound a m Hm) as Hb.
  symmetry. apply (Z.mod_unique_pos _ _ (a / m)); [lia|].
  pose proof (Z.div_mod a m ltac:(lia)). lia.
Qed.

Lemma wrap_in_range z : Int.in_range (Int.wrap z).
Proof.
  unfold Int.in_range, Int.INT_MIN, Int.INT_MAX, Int.wrap.
  pose proof (Z.mod_pos_bound (z + 2 ^ 31) (2 ^ 32)). lia.
Qed.

(** Wrapping an operand first does not change a wrapped difference. *)
Lemma wrap_sub_l a b : Int.wrap (Int.wrap a - b) = Int.wrap (a - b).
Proof.
  unfold Int.wrap. f_equal.
  replace ((a + 2 ^ 31) mod 2 ^ 32 - 2 ^ 31 - b + 2 ^ 31)
    with ((a + 2 ^ 31) mod 2 ^ 32 + - b) by lia.
  rewrite Zplus_mod_idemp_l. f_equal. lia.
Qed.

Lemma rem_zero_iff a b : b <> 0 -> Int.rem a b = 0 <-> a mod b = 0.
Proof.
  intros Hb. unfold Int.rem. rewrite Z.rem_divide, Z.mod_divide by assumption. reflexivity.
Qed.

End IntFacts.

(** ** Loop splitting *)

Module SimdFacts.
Import Simd IntFacts.

Lemma zrange_app lo n m :
  zrange lo (n + m) = zrange lo n ++ zrange (lo + Z.of_nat n) m.
Proof.
  revert lo. induction n as [|n IH]; intros lo.
  - simpl. f_equal. lia.
  - cbn [zrange Nat.add app]. rewrite IH. do 3 f_equal. lia.
Qed.

Lemma zrange_length lo n : length (zrange lo n) = n.
Proof. revert lo. induction n as [|n IH]; intros lo; simpl; [|rewrite IH]; reflexivity. Qed.

Lemma zrange_In lo n x : In x (zrange lo n) <-> lo <= x < lo + Z.of_nat n.
Proof.
  revert lo. induction n as [|n IH]; intros lo.
  - simpl. lia.
  - cbn [zrange In]. rewrite IH. lia.
Qed.

Lemma zrange_NoDup lo n : List.NoDup (zrange lo n).
Proof.
  revert lo. induction n as [|n IH]; intros lo; simpl; constructor.
  - rewrite zrange_In. lia.
  - apply IH.
Qed.

Lemma interval_split a b c :
  a <= b <= c -> interval a c = interval a b ++ interval b c.
Proof.
  intros H. unfold interval.
  replace (Z.to_nat (c - a)) with (Z.to_nat (b - a) + Z.to_nat (c - b))%nat by lia.
  rewrite zrange_app. do 2 f_equal. lia.
Qed.

(** The peel loop stops inside [[peel_end, end]]. *)
Lemma peel_loop_spec sizeof_scalar p e fuel : forall pe,
  Int.in_range pe -> Int.in_range e -> pe <= e ->
  (Z.to_nat (e - pe) < fuel)%nat ->
  exists pe', peel_loop fuel sizeof_scalar p pe e = Some pe' /\ pe <= pe' <= e.
Proof.
  induction fuel as [|fuel IH]; intros pe Hpe He Hle Hfuel; [lia|].
  cbn [peel_loop].
  destruct (negb (is_aligned align_bytes (ptr_add sizeof_scalar p pe)) && (pe <? e)) eqn:Hc.
  - apply andb_true_iff in Hc as [_ Hlt]. apply Z.ltb_lt in Hlt.
    unfold Int.in_range in *.
    rewrite add_small by (unfold Int.in_range; lia).
    destruct (IH (pe + 1)) as (pe' & Hrun & Hb); try lia.
    exists pe'. split; [exact Hrun | lia].
  - exists pe. split; [reflexivity | lia].
Qed.

(** An aligned first element ends the peel loop at once. *)
Lemma peel_loop_aligned sizeof_scalar p pe e fuel :
  is_aligned align_bytes (ptr_add sizeof_scalar p pe) = true ->
  peel_loop (S fuel) sizeof_scalar p pe e = Some pe.
Proof. intros H. cbn [peel_loop]. rewrite H. reflexivity. Qed.

(** The second loop lowers [vec_end] by the residue of the distance. *)
Lemma vec_loop_spec step pe fuel : forall ve,
  1 <= step -> Int.in_range pe -> Int.in_range ve -> pe <= ve -> ve - pe <= Int.INT_MAX ->
  (ve - pe) mod step < Z.of_nat fuel ->
  vec_loop fuel step pe ve = Some (ve - (ve - pe) mod step).
Proof.
  induction fuel as [|fuel IH]; intros ve Hstep Hpe Hve Hle Hd Hfuel.
  - pose proof (Z.mod_pos_bound (ve - pe) step ltac:(lia)). lia.
  - cbn [vec_loop].
    assert (Hin : Int.in_range (ve - pe)).
    { unfold Int.in_range, Int.INT_MIN, Int.INT_MAX in *. lia. }
    rewrite (sub_small ve pe Hin), rem_nonneg by lia.
    destruct ((ve - pe) mod step =? 0) eqn:Hr; cbn [negb].
    + apply Z.eqb_eq in Hr. rewrite Hr. f_equal. lia.
    + apply Z.eqb_neq in Hr.
      pose proof (Z.mod_pos_bound (ve - pe) step ltac:(lia)) as Hb.
      assert (pe < ve).
      { destruct (Z.eq_dec ve pe) as [->|]; [|lia].
        rewrite Z.sub_diag, Z.mod_0_l in Hr by lia. congruence. }
      assert (Hin1 : Int.in_range (ve - 1)).
      { unfold Int.in_range, Int.INT_MIN, Int.INT_MAX in *. lia. }
      rewrite (sub_small ve 1 Hin1).
      rewrite IH; try lia; try assumption.
      * replace (ve - 1 - pe) with (ve - pe - 1) by lia.
        rewrite mod_pred by lia. f_equal. lia.
      * replace (ve - 1 - pe) with (ve - pe - 1) by lia.
        rewrite mod_pred by lia. lia.
Qed.

Lemma decrements_bound step d :
  1 <= step -> Int.in_range d -> 0 <= decrements step d < 2 * step.
Proof.
  intros Hstep Hd. unfold decrements, Int.in_range in *.
  pose proof (Z.mod_pos_bound d step ltac:(lia)).
  pose proof (Z.mod_pos_bound Int.INT_MAX step ltac:(lia)).
  destruct (Int.INT_MIN <=? d - d mod step) eqn:Hb.
  - lia.
  - apply Z.leb_gt in Hb. lia.
Qed.

Lemma decrements_pred step d :
  1 <= step -> Int.in_range d -> d mod step <> 0 ->
  decrements step (Int.wrap (d - 1)) = decrements step d - 1.
Proof.
  intros Hstep Hd Hr. unfold decrements.
  pose proof (Z.mod_pos_bound d step ltac:(lia)) as Hb.
  destruct (Z.eq_dec d Int.INT_MIN) as [->|Hne].
  - replace (Int.wrap (Int.INT_MIN - 1)) with Int.INT_MAX by reflexivity.
    pose proof (Z.mod_pos_bound Int.INT_MAX step ltac:(lia)).
    pose proof (Z.mod_le Int.INT_MAX step ltac:(unfold Int.INT_MAX; lia) ltac:(lia)).
    replace (Int.INT_MIN <=? Int.INT_MAX - Int.INT_MAX mod step) with true
      by (symmetry; apply Z.leb_le; unfold Int.INT_MIN, Int.INT_MAX in *; lia).
    replace (Int.INT_MIN <=? Int.INT_MIN - Int.INT_MIN mod step) with false
      by (symmetry; apply Z.leb_gt; lia).
    lia.
  - rewrite wrap_small by (unfold Int.in_range in *; lia).
    rewrite mod_pred by lia.
    replace (d - 1 - (d mod step - 1)) with (d - d mod step) by lia.
    destruct (Int.INT_MIN <=? d - d mod step); lia.
Qed.

Lemma decrements_zero step d :
  1 <= step -> Int.in_range d -> decrements step d <= 0 -> d mod step = 0.
Proof.
  intros Hstep Hd. unfold decrements, Int.in_range in *.
  pose proof (Z.mod_pos_bound d step ltac:(lia)).
  pose proof (Z.mod_pos_bound Int.INT_MAX step ltac:(lia)).
  destruct (Int.INT_MIN <=? d - d mod step); lia.
Qed.

(** With wrap-around the second loop ends for any two [int]s, within
    [2 * step] decrements. *)
Lemma vec_loop_ends step pe fuel : forall ve,
  1 <= step ->
  decrements step (Int.sub ve pe) < Z.of_nat fuel ->
  exists ve', vec_loop fuel step pe ve = Some ve'.
Proof.
  induction fuel as [|fuel IH]; intros ve Hstep Hfuel.
  - pose proof (decrements_bound step (Int.sub ve pe) Hstep (wrap_in_range _)). lia.
  - cbn [vec_loop].
    destruct (Int.rem (Int.sub ve pe) step =? 0) eqn:Hr; cbn [negb]; [eauto|].
    apply Z.eqb_neq in Hr. rewrite rem_zero_iff in Hr by lia.
    apply IH; [assumption|].
    replace (Int.sub (Int.sub ve 1) pe) with (Int.wrap (Int.sub ve pe - 1)).
    + rewrite decrements_pred; try assumption; [lia | apply wrap_in_range].
    + unfold Int.sub. rewrite !wrap_sub_l. f_equal. lia.
Qed.

(** [split_loop] returns for all [int] bounds and every [step >= 1]. *)
Lemma split_loop_returns sizeof_scalar step p start end_ :
  1 <= step -> Int.in_range start -> Int.in_range end_ ->
  exists s, split_loop sizeof_scalar step p start end_ = Some s.
Proof.
  intros Hstep Hs He. unfold split_loop.
  assert (Hpeel : exists pe,
             peel_loop (S (Z.to_nat (end_ - start))) sizeof_scalar p start end_ = Some pe).
  { destruct (Z.le_gt_cases start end_) as [Hle|Hgt].
    - destruct (peel_loop_spec sizeof_scalar p end_ (S (Z.to_nat (end_ - start))) start)
        as (pe & Hrun & _); try assumption; [lia | eauto].
    - exists start. cbn [peel_loop].
      replace (start <? end_) with false by (symmetry; apply Z.ltb_ge; lia).
      rewrite andb_false_r. reflexivity. }
  destruct Hpeel as [pe ->].
  destruct (vec_loop_ends step pe (S (Z.to_nat (2 * step))) end_ Hstep) as [ve ->]; [|eauto].
  pose proof (decrements_bound step (Int.sub end_ pe) Hstep (wrap_in_range _)). lia.
Qed.

Lemma scalar_loop_spec hi n : forall i fuel,
  Int.in_range i -> Int.in_range hi -> hi - i = Z.of_nat n -> (n < fuel)%nat ->
  scalar_loop fuel i hi = Some (map fn_scalar (zrange i n)).
Proof.
  induction n as [|n IH]; intros i fuel Hi Hhi Hd Hfuel;
    (destruct fuel as [|fuel]; [lia|]); cbn [scalar_loop].
  - replace (i <? hi) with false by (symmetry; apply Z.ltb_ge; lia). reflexivity.
  - replace (i <? hi) with true by (symmetry; apply Z.ltb_lt; lia).
    unfold Int.in_range in *.
    rewrite add_small by (unfold Int.in_range; lia).
    rewrite (IH (i + 1) fuel) by (unfold Int.in_range; lia). reflexivity.
Qed.

Lemma vector_loop_spec step hi n : forall i fuel,
  1 <= step -> Int.in_range i -> Int.in_range hi -> hi - i = Z.of_nat n * step ->
  (n < fuel)%nat ->
  vector_loop fuel step i hi = Some (map fn_vector (strides step i n)).
Proof.
  induction n as [|n IH]; intros i fuel Hstep Hi Hhi Hd Hfuel;
    (destruct fuel as [|fuel]; [lia|]); cbn [vector_loop].
  - replace (i <? hi) with false by (symmetry; apply Z.ltb_ge; lia). reflexivity.
  - replace (i <? hi) with true by (symmetry; apply Z.ltb_lt; nia).
    unfold Int.in_range in *.
    rewrite add_small by (unfold Int.in_range; nia).
    rewrite (IH (i + step) fuel) by (unfold Int.in_range; nia). reflexivity.
Qed.

Lemma touched_scalars step l :
  flat_map (touched step) (map fn_scalar l) = l.
Proof. induction l as [|x l IH]; simpl; [|rewrite IH]; reflexivity. Qed.

Lemma touched_vectors step lo n :
  0 <= step ->
  flat_map (touched step) (map fn_vector (strides step lo n)) = zrange lo (n * Z.to_nat step).
Proof.
  intros Hstep. revert lo. induction n as [|n IH]; intros lo; [reflexivity|].
  cbn [strides map flat_map touched]. rewrite IH.
  replace (S n * Z.to_nat step)%nat with (Z.to_nat step + n * Z.to_nat step)%nat by lia.
  rewrite zrange_app. do 2 f_equal. lia.
Qed.

(** The unaligned pointer [p = 4] to 4-byte scalars with [step = 4] on [[0, 11)]:
    three peeled elements, two vector blocks, no remainder. *)
Example split_loop_float_0_11 :
  split_loop 4 4 4 0 11 = Some (Build_split_loop_t 4 0 3 11 11) /\
  for_each (Build_split_loop_t 4 0 3 11 11)
  = Some [fn_scalar 0; fn_scalar 1; fn_scalar 2; fn_vector 3; fn_vector 7].
Proof. split; reflexivity. Qed.

(** An aligned pointer to 8-byte scalars with [step = 2] on [[0, 5)]: two
    vector blocks and one element left over. *)
Example split_loop_double_0_5 :
  split_loop 8 2 32 0 5 = Some (Build_split_loop_t 2 0 0 4 5) /\
  for_each (Build_split_loop_t 2 0 0 4 5) = Some [fn_vector 0; fn_vector 2; fn_scalar 4].
Proof. split; reflexivity. Qed.

(** C10, for bounds whose distance is an [int]: for every pointer [p], every
    [step >= 1] and all [int] bounds [start <= end] with
    [end - start <= INT_MAX],
    [split_loop] returns sections with [start <= peel_end <= vec_end <= end]
    and [vec_end - peel_end] a multiple of [step]; [for_each] then calls the
    scalar body on each index of [[start, peel_end)], the vector body at
    [peel_end, peel_end + step, ...] below [vec_end], and the scalar body on
    each index of [[vec_end, end)]; the indices these calls work on are
    those of [[start, end)], each one once, in increasing order. *)
Theorem split_loop_covers sizeof_scalar step p start end_ :
  1 <= step ->
  Int.in_range start -> Int.in_range end_ -> start <= end_ ->
  end_ - start <= Int.INT_MAX ->
  exists s calls,
    split_loop sizeof_scalar step p start end_ = Some s /\
    Simd.step s = step /\ Simd.start s = start /\ Simd.end_ s = end_ /\
    start <= peel_end s <= vec_end s /\ vec_end s <= end_ /\
    Z.divide step (vec_end s - peel_end s) /\
    for_each s = Some calls /\
    calls = map fn_scalar (interval start (peel_end s))
            ++ map fn_vector
                 (strides step (peel_end s) (Z.to_nat ((vec_end s - peel_end s) / step)))
            ++ map fn_scalar (interval (vec_end s) end_) /\
    flat_map (touched step) calls = interval start end_ /\
    List.NoDup (flat_map (touched step) calls).
Proof.
  intros Hstep Hs He Hle Hd.
  destruct (peel_loop_spec sizeof_scalar p end_ (S (Z.to_nat (end_ - start))) start)
    as (pe & Hpeel & Hpe); try assumption; [lia|].
  assert (Hpe_in : Int.in_range pe) by (unfold Int.in_range in *; lia).
  pose proof (Z.mod_pos_bound (end_ - pe) step ltac:(lia)) as Hr.
  pose proof (Z.mod_le (end_ - pe) step ltac:(lia) ltac:(lia)) as Hr'.
  pose proof (vec_loop_spec step pe (S (Z.to_nat (2 * step))) end_ Hstep Hpe_in He
                ltac:(lia) ltac:(lia) ltac:(lia)) as Hvec.
  set (ve := end_ - (end_ - pe) mod step) in *.
  assert (Hdiv : ve - pe = (end_ - pe) / step * step).
  { unfold ve. pose proof (Z.div_mod (end_ - pe) step ltac:(lia)). lia. }
  assert (Hq : 0 <= (end_ - pe) / step) by (apply Z.div_pos; lia).
  set (s := Build_split_loop_t step start pe ve end_).
  assert (Hve_in : Int.in_range ve) by (unfold Int.in_range in *; lia).
  assert (Hcalls : for_each s
                   = Some (map fn_scalar (interval start pe)
                           ++ map fn_vector (strides step pe (Z.to_nat ((ve - pe) / step)))
                           ++ map fn_scalar (interval ve end_))).
  { unfold for_each, s; cbn [Simd.start Simd.peel_end Simd.vec_end Simd.end_ Simd.step].
    rewrite (scalar_loop_spec pe (Z.to_nat (pe - start))) by (try assumption; lia).
    rewrite (vector_loop_spec step ve (Z.to_nat ((ve - pe) / step))); try assumption.
    - rewrite (scalar_loop_spec end_ (Z.to_nat (end_ - ve))) by (try assumption; lia).
      reflexivity.
    - rewrite Hdiv, Z.div_mul by lia. lia.
    - rewrite Hdiv, Z.div_mul by lia. nia. }
  assert (Hcover : flat_map (touched step)
                     (map fn_scalar (interval start pe)
                      ++ map fn_vector (strides step pe (Z.to_nat ((ve - pe) / step)))
                      ++ map fn_scalar (interval ve end_))
                   = interval start end_).
  { rewrite !flat_map_app, !touched_scalars, touched_vectors by lia.
    rewrite (interval_split start pe end_), (interval_split pe ve end_) by lia.
    do 2 f_equal. unfold interval. f_equal.
    rewrite Hdiv, Z.div_mul by lia. nia. }
  exists s, (map fn_scalar (interval start pe)
             ++ map fn_vector (strides step pe (Z.to_nat ((ve - pe) / step)))
             ++ map fn_scalar (interval ve end_)).
  unfold split_loop. rewrite Hpeel, Hvec. fold ve. fold s.
  cbn [Simd.start Simd.peel_end Simd.vec_end Simd.end_ Simd.step s].
  repeat split; try reflexivity; try lia; try assumption.
  - exists ((end_ - pe) / step). exact Hdiv.
  - rewrite Hcover. apply zrange_NoDup.
Qed.

(** [split_loop_covers] at the unaligned [float] pointer [p = 4], [[0, 11)]. *)
Lemma split_loop_covers_witness :
  exists s calls,
    split_loop 4 4 4 0 11 = Some s /\
    Simd.step s = 4 /\ Simd.start s = 0 /\ Simd.end_ s = 11 /\
    0 <= peel_end s <= vec_end s /\ vec_end s <= 11 /\
    Z.divide 4 (vec_end s - peel_end s) /\
    for_each s = Some calls /\
    calls = map fn_scalar (interval 0 (peel_end s))
            ++ map fn_vector (strides 4 (peel_end s) (Z.to_nat ((vec_end s - peel_end s) / 4)))
            ++ map fn_scalar (interval (vec_end s) 11) /\
    flat_map (touched 4) calls = interval 0 11 /\
    List.NoDup (flat_map (touched 4) calls).
Proof.
  apply (split_loop_covers 4 4 4 0 11); unfold Int.in_range, Int.INT_MIN, Int.INT_MAX; lia.
Defined.

(** C10 without the bound on the distance: [end - start] may overflow an
    [int].  With [step = 3] on [[INT_MIN, INT_MAX)] and 4-byte scalars whose
    first element [p + INT_MIN] is aligned ([p] is the address [2^34]), the
    wrapped difference [vec_end - peel_end] goes [-1], [-2], [-3]; the loop
    stops there, and the distance between [peel_end] and [vec_end] is one
    more than a multiple of 3. *)
Lemma split_loop_overflow :
  1 <= 3 /\ Int.INT_MIN <= Int.INT_MAX /\
  exists s,
    split_loop 4 3 (2 ^ 34) Int.INT_MIN Int.INT_MAX = Some s /\
    peel_end s = Int.INT_MIN /\ vec_end s = Int.INT_MAX - 2 /\
    (vec_end s - peel_end s) mod 3 = 1 /\
    ~ Z.divide 3 (vec_end s - peel_end s).
Proof.
  split; [lia|]. split; [unfold Int.INT_MIN, Int.INT_MAX; lia|].
  unfold split_loop.
  rewrite peel_loop_aligned by (vm_compute; reflexivity).
  eexists. split; [vm_compute; reflexivity|].
  cbn [peel_end vec_end].
  split; [reflexivity|]. split; [reflexivity|]. split; [reflexivity|].
  intros [k Hk]. unfold Int.INT_MAX, Int.INT_MIN in Hk. lia.
Qed.

End SimdFacts.

(** ** System construction *)

Module SysFacts.
Import Cpp Sys.

Section Facts.
Context {K : Collaborators}.

Lemma resize_length size p : length (resize size p) = size.
Proof.
  unfold resize. rewrite length_app, length_firstn, repeat_length. lia.
Qed.

Lemma populate_site_positions f system site :
  length (positions (populate_site f system site)) = length (positions system).
Proof.
  unfold populate_site. destruct (finalized_index f site <? 0); [reflexivity|].
  cbn [positions]. apply length_insert.
Qed.

Lemma populate_sites_positions f l : forall system,
  length (positions (fold_left (populate_site f) l system)) = length (positions system).
Proof.
  induction l as [|site l IH]; intros system; cbn [fold_left]; [reflexivity|].
  rewrite IH. apply populate_site_positions.
Qed.

(** After [populate_system] there is one position per finalized index. *)
Lemma populate_system_positions system f system' :
  populate_system system f = Ok system' ->
  length (positions system') = finalized_size f.
Proof.
  unfold populate_system. cbv zeta.
  destruct (cs_verify _ _); cbn [bind]; [|discriminate].
  intros [= <-]. rewrite populate_sites_positions. cbn [positions].
  apply resize_length.
Qed.

Lemma add_translation_positions f system t :
  positions (add_translation f system t) = positions system.
Proof.
  unfold add_translation. destruct t as [[boundary_slice shift_index] shift_lenght].
  destruct (0 <? hb_nnz _); reflexivity.
Qed.

Lemma populate_boundaries_positions f symmetry system :
  positions (populate_boundaries system f symmetry) = positions system.
Proof.
  unfold populate_boundaries. revert system.
  induction (translations symmetry f) as [|t l IH]; intros system; cbn [fold_left];
    [reflexivity|].
  rewrite IH. apply add_translation_positions.
Qed.

Lemma add_extra_hoppings_positions system gen system' :
  add_extra_hoppings system gen = Ok system' -> positions system' = positions system.
Proof.
  unfold add_extra_hoppings. cbv zeta.
  destruct (hopping_family_id _ _); cbn [bind]; [|discriminate].
  intros [= <-]. reflexivity.
Qed.

Lemma extra_hoppings_positions gens : forall system system',
  for_range add_extra_hoppings gens system = Ok system' ->
  positions system' = positions system.
Proof.
  induction gens as [|gen gens IH]; intros system system'; cbn [for_range].
  - intros [= <-]. reflexivity.
  - destruct (add_extra_hoppings system gen) as [system1|e] eqn:Hgen; cbn [bind];
      [|discriminate].
    intros H. rewrite (IH _ _ H). apply (add_extra_hoppings_positions _ _ _ Hgen).
Qed.

(** The number of sites when the constructor tests it is the number of
    finalized indices of the foundation. *)
Lemma System_populated_num_sites f symmetry gens this :
  System_populated f symmetry gens = Ok this ->
  num_sites this = Z.of_nat (finalized_size f).
Proof.
  unfold System_populated. cbv zeta.
  destruct (populate_system _ f) as [system1|e] eqn:Hpop; cbn [bind]; [|discriminate].
  intros Hgens. apply extra_hoppings_positions in Hgens.
  unfold num_sites. rewrite Hgens. f_equal.
  destruct (symmetry_enabled symmetry).
  - rewrite populate_boundaries_positions. apply (populate_system_positions _ _ _ Hpop).
  - apply (populate_system_positions _ _ _ Hpop).
Qed.

(** The constructor from a lattice alone makes no test: its system has no site. *)
Lemma System_of_lattice_num_sites (l : Lattice) : num_sites (System_of_lattice l) = 0.
Proof. reflexivity. Qed.

(** C9: if the populated system has no site, the constructor throws
    [std::runtime_error("Impossible system: 0 sites")] and yields no
    [System]; and a [System] the constructor does yield is the populated one
    and has at least one site. *)
Theorem System_new_has_sites f symmetry gens :
  (forall this,
      System_populated f symmetry gens = Ok this -> num_sites this = 0 ->
      System_new f symmetry gens = Throw (runtime_error "Impossible system: 0 sites")) /\
  (forall system,
      System_new f symmetry gens = Ok system ->
      System_populated f symmetry gens = Ok system /\ 1 <= num_sites system).
Proof.
  unfold System_new. split.
  - intros this -> Hzero. cbn [bind]. rewrite Hzero. reflexivity.
  - intros system. destruct (System_populated f symmetry gens) as [this|e]; cbn [bind];
      [|discriminate].
    destruct (num_sites this =? 0) eqn:Hn; [discriminate|].
    intros [= <-]. split; [reflexivity|].
    apply Z.eqb_neq in Hn. unfold num_sites in *. lia.
Qed.

End Facts.

(** [System_new_has_sites] on the chain: the foundation without a valid site
    is refused, the one with three sites gives a system of three sites. *)
Lemma System_new_has_sites_witness :
  System_new (K := Chain.collaborators) Chain.no_site false []
  = Throw (runtime_error "Impossible system: 0 sites") /\
  exists system,
    System_new (K := Chain.collaborators) Chain.three_sites true ["t"%string] = Ok system /\
    1 <= num_sites system.
Proof.
  split.
  - apply (proj1 (System_new_has_sites (K := Chain.collaborators) Chain.no_site false [])
                 (Build_System (K := Chain.collaborators) tt [] [] [] []));
      reflexivity.
  - eexists. split; [vm_compute; reflexivity|].
    eapply (proj2 (System_new_has_sites (K := Chain.collaborators)
                     Chain.three_sites true ["t"%string])).
    vm_compute. reflexivity.
Defined.

End SysFacts.

(** ** The KPM strategy *)

Module KpmFacts.
Import Cpp Kpm.

Section Facts.
Context {K : Collaborators} {E : Engine}.

(** *** Replacing the Hamiltonian *)

(** C1: [change_hamiltonian] with a Hamiltonian of another scalar type
    returns [false] and leaves every member of the strategy (Hamiltonian,
    bounds, optimized Hamiltonian, stats, config) as it was. *)
Theorem change_hamiltonian_other_scalar (this : Strategy) (h : Hamiltonian) :
  ham_is h = false ->
  change_hamiltonian this h = (false, this).
Proof. intros Hh. unfold change_hamiltonian. rewrite Hh. reflexivity. Qed.

(** C2: [change_hamiltonian] with a Hamiltonian of the strategy's scalar type
    returns [true], holds the new matrix, builds a new optimized Hamiltonian
    from it, and sets the bounds: to bounds computed from the new matrix when
    [config.min_energy == config.max_energy], and otherwise to the bounds of
    the configured range, whatever the new matrix (bounds that were those of
    the configured range stay what they were). Config and stats are kept. *)
Theorem change_hamiltonian_same_scalar (this : Strategy) (h : Hamiltonian) :
  ham_is h = true ->
  let c := config this in
  let m := ham_get_shared_ptr h in
  exists this',
    change_hamiltonian this h = (true, this') /\
    hamiltonian this' = m /\
    optimized_hamiltonian this'
    = OptimizedHamiltonian_new m (matrix_format c) (reorder (algorithm c)) /\
    (config_real_eq (min_energy c) (max_energy c) = true ->
     bounds this' = Bounds_of_matrix m (lanczos_precision c)) /\
    (config_real_eq (min_energy c) (max_energy c) = false ->
     bounds this' = Bounds_of_range (min_energy c) (max_energy c) /\
     (bounds this = Bounds_of_range (min_energy c) (max_energy c) ->
      bounds this' = bounds this)) /\
    config this' = c /\
    stats this' = stats this.
Proof.
  intros Hh c m. unfold change_hamiltonian. rewrite Hh. cbn [negb].
  eexists. split; [reflexivity|].
  cbn [hamiltonian optimized_hamiltonian bounds config stats].
  fold c. fold m. unfold reset_bounds.
  repeat split; try reflexivity.
  - intros ->. reflexivity.
  - destruct (config_real_eq _ _); [discriminate | reflexivity].
  - destruct (config_real_eq _ _); [discriminate|]. intros ->. reflexivity.
Qed.

(** *** Construction *)

(** C3: with [config.min_energy > config.max_energy] the constructor throws
    [std::invalid_argument]: no strategy is built, with the range as given or
    swapped. *)
Theorem StrategyTemplate_new_invalid_range (h : SparseMatrixX) (c : Config) :
  config_real_gt (min_energy c) (max_energy c) = true ->
  StrategyTemplate_new h c
  = Throw (invalid_argument "KPM: Invalid energy range specified (min > max).") /\
  forall this, StrategyTemplate_new h c <> Ok this.
Proof.
  intros Hgt. unfold StrategyTemplate_new. cbv zeta. rewrite Hgt.
  split; [reflexivity | discriminate].
Qed.

(** A range that is not inverted gives the strategy with the bounds [reset_bounds] chose. *)
Lemma StrategyTemplate_new_valid_range (h : SparseMatrixX) (c : Config) :
  config_real_gt (min_energy c) (max_energy c) = false ->
  exists this,
    StrategyTemplate_new h c = Ok this /\
    hamiltonian this = h /\ config this = c /\ bounds this = reset_bounds h c.
Proof.
  intros Hgt. unfold StrategyTemplate_new. cbv zeta. rewrite Hgt.
  eexists. repeat split.
Qed.

(** *** The number of moments *)

Lemma ldos_unfold this t0 t1 index energy broadening :
  ldos this t0 t1 index energy broadening
  = ldos_with_moments (rescaled_num_moments this broadening) this t0 t1 index energy.
Proof.
  unfold ldos, ldos_with_moments, rescaled_num_moments.
  destruct (scaling_factors (bounds this)) as [scale bounds']. reflexivity.
Qed.

Lemma greens_vector_unfold this t0 t1 row cols energy broadening :
  greens_vector this t0 t1 row cols energy broadening
  = greens_vector_with_moments (rescaled_num_moments this broadening) this t0 t1 row cols energy.
Proof.
  unfold greens_vector, greens_vector_with_moments, rescaled_num_moments.
  destruct cols as [|col cols]; [reflexivity|].
  destruct (scaling_factors (bounds this)) as [scale bounds']. cbn [fst].
  destruct (is_diagonal _); [reflexivity|].
  cbv zeta. rewrite map_map. reflexivity.
Qed.

(** The loop of [dos] adds the realizations to [total], in order. *)
Lemma dos_loop_total oh a n : forall moments generator total,
  snd (dos_loop n oh a (moments, generator, total))
  = fold_left array_add (realizations n oh a moments generator) total.
Proof.
  induction n as [|n IH]; intros moments generator total; [reflexivity|].
  cbn [dos_loop realizations]. unfold dos_pass at 1.
  destruct (random_starter oh generator) as [starter generator'].
  rewrite IH. reflexivity.
Qed.


Lemma dos_unfold this t0 t1 energy broadening :
  dos this t0 t1 energy broadening
  = dos_with_moments (rescaled_num_moments this broadening) mt19937_default this t0 t1 energy.
Proof.
  unfold dos, dos_with_moments, rescaled_num_moments.
  destruct (scaling_factors (bounds this)) as [scale bounds']. cbn [fst]. cbv zeta.
  match goal with
  | |- context [dos_loop ?n ?oh ?a (?m, ?g, ?t)] =>
      pose proof (dos_loop_total oh a n m g t) as Hloop;
      destruct (dos_loop n oh a (m, g, t)) as [[moments' generator'] total'] eqn:Hrun;
      assert (Htotal : total' = fold_left array_add (realizations n oh a m g) t)
        by exact (eq_trans (f_equal snd (eq_sym Hrun)) Hloop)
  end.
  rewrite Htotal. reflexivity.
Qed.

(** C8: [ldos], [greens_vector] and [dos] each run with the number of
    moments that [kernel.required_num_moments] gives for the broadening
    divided by the scale factor [a]. *)
Theorem num_moments_from_rescaled_broadening
    (this : Strategy) (t0 t1 : time_point) (index row : Z) (cols : list Z)
    (energy : ArrayXd) (broadening : double) :
  let num_moments :=
    required_num_moments (kernel (config this))
      (double_div_real broadening (scale_a (fst (scaling_factors (bounds this))))) in
  ldos this t0 t1 index energy broadening
  = ldos_with_moments num_moments this t0 t1 index energy /\
  greens_vector this t0 t1 row cols energy broadening
  = greens_vector_with_moments num_moments this t0 t1 row cols energy /\
  dos this t0 t1 energy broadening
  = dos_with_moments num_moments mt19937_default this t0 t1 energy.
Proof.
  cbv zeta. split; [|split].
  - apply ldos_unfold.
  - apply greens_vector_unfold.
  - apply dos_unfold.
Qed.

(** *** Repeated queries *)

(** A second call finds the scale factors the first one left. *)
Lemma scaling_factors_again (b : Bounds) (scale : Scale) (b' : Bounds) :
  scaling_factors_cached ->
  scaling_factors b = (scale, b') -> scaling_factors b' = (scale, b').
Proof.
  intros Hcached Hb. pose proof (Hcached b) as H. rewrite Hb in H. exact H.
Qed.

(** The value [ldos] returns does not depend on the stats. *)
Lemma ldos_ignores_stats this st t0 t1 index energy broadening :
  fst (ldos (after_query this (bounds this) (optimized_hamiltonian this) st)
            t0 t1 index energy broadening)
  = fst (ldos this t0 t1 index energy broadening).
Proof.
  unfold ldos. cbn [after_query bounds config optimized_hamiltonian stats].
  destruct (scaling_factors (bounds this)) as [scale bounds']. reflexivity.
Qed.

(** C4: two successive calls of [ldos] with the same index, energies and
    broadening return the same array, whatever the clock readings; the state
    the first call leaves (bounds, optimized Hamiltonian, stats) does not
    change the value of the second. *)
Theorem ldos_repeatable :
  scaling_factors_cached -> optimize_for_idempotent ->
  forall (this : Strategy) (t0 t1 t0' t1' : time_point)
         (index : Z) (energy : ArrayXd) (broadening : double),
    let first := ldos this t0 t1 index energy broadening in
    fst (ldos (snd first) t0' t1' index energy broadening) = fst first.
Proof.
  intros Hcached Hidem this t0 t1 t0' t1' index energy broadening. cbv zeta.
  unfold ldos.
  destruct (scaling_factors (bounds this)) as [scale bounds'] eqn:Hscale.
  cbn [fst snd after_query bounds config optimized_hamiltonian stats].
  rewrite (scaling_factors_again _ _ _ Hcached Hscale).
  cbn [fst]. rewrite Hidem. reflexivity.
Qed.

(** C7: the generator of [dos] is a local of the call, default-constructed
    each time: it is no member of the strategy and no global.  Each call
    draws its starters from the same initial state, and two successive calls
    of [dos] return the same array. *)
Theorem dos_repeatable :
  scaling_factors_cached -> optimize_for_idempotent ->
  forall (this : Strategy) (t0 t1 t0' t1' : time_point)
         (energy : ArrayXd) (broadening : double),
    let first := dos this t0 t1 energy broadening in
    first
    = dos_with_moments (rescaled_num_moments this broadening) mt19937_default
                       this t0 t1 energy /\
    dos (snd first) t0' t1' energy broadening
    = dos_with_moments (rescaled_num_moments this broadening) mt19937_default
                       (snd first) t0' t1' energy /\
    fst (dos (snd first) t0' t1' energy broadening) = fst first.
Proof.
  intros Hcached Hidem this t0 t1 t0' t1' energy broadening. cbv zeta.
  assert (Hn : rescaled_num_moments (snd (dos this t0 t1 energy broadening)) broadening
               = rescaled_num_moments this broadening).
  { rewrite dos_unfold. unfold rescaled_num_moments, dos_with_moments.
    destruct (scaling_factors (bounds this)) as [scale bounds'] eqn:Hscale.
    cbn [fst snd after_query bounds config].
    rewrite (scaling_factors_again _ _ _ Hcached Hscale). reflexivity. }
  split; [apply dos_unfold|]. split; [rewrite <- Hn; apply dos_unfold|].
  rewrite (dos_unfold (snd (dos this t0 t1 energy broadening))), Hn, dos_unfold.
  unfold dos_with_moments.
  destruct (scaling_factors (bounds this)) as [scale bounds'] eqn:Hscale.
  cbn [fst snd after_query bounds config optimized_hamiltonian stats].
  rewrite (scaling_factors_again _ _ _ Hcached Hscale).
  cbn [fst]. rewrite Hidem. reflexivity.
Qed.

(** *** Green's function of one element *)

(** C5: [greens(row, col, ...)] returns the first element of
    [greens_vector(row, {col}, ...)] and leaves the strategy in the state
    [greens_vector] leaves it in; with one moment sequence per column, that
    element is the only one. *)
Theorem greens_is_front_of_greens_vector
    (this : Strategy) (t0 t1 : time_point) (row col : Z)
    (energy : ArrayXd) (broadening : double) :
  exists (v : list ArrayXcd) (this' : Strategy),
    greens_vector this t0 t1 row [col] energy broadening = Ok (v, this') /\
    greens this t0 t1 row col energy broadening = (let* g := front v in Ok (g, this')) /\
    (one_sequence_per_column ->
     exists g : ArrayXcd,
       v = [g] /\ greens this t0 t1 row col energy broadening = Ok (g, this')).
Proof.
  unfold greens. unfold greens_vector.
  destruct (scaling_factors (bounds this)) as [scale bounds'].
  cbv zeta.
  destruct (is_diagonal _) eqn:Hdiag.
  - eexists. eexists. split; [reflexivity|]. split; [reflexivity|].
    intros _. eexists. split; reflexivity.
  - eexists. eexists. split; [reflexivity|]. split; [reflexivity|].
    intros Hcols.
    pose proof (Hcols (required_num_moments (kernel (config this))
                         (double_div_real broadening (scale_a scale)))
                      row [col] scale (optimized_hamiltonian this)
                      (exval_starter (optimize_for (Build_Indices row [col]) scale
                                                   (optimized_hamiltonian this)))
                      (algorithm (config this))) as Hlen.
    cbv zeta in Hlen. cbn [length] in Hlen.
    destruct (offdiagonal_get _) as [|moments [|moments' rest]]; cbn [length] in Hlen;
      try discriminate.
    eexists. split; reflexivity.
Qed.

(** *** Density of states *)


End Facts.

(** *** The integer engine meets what the strategy relies on *)

Section ExactEngine.
Import Exact.
#[local] Existing Instance Exact.collaborators.
#[local] Existing Instance Exact.engine.

Lemma exact_scaling_factors_cached : scaling_factors_cached.
Proof. intros b. reflexivity. Qed.

Lemma exact_optimize_for_idempotent : optimize_for_idempotent.
Proof. intros i scale oh. reflexivity. Qed.

Lemma exact_one_sequence_per_column : one_sequence_per_column.
Proof.
  intros n row cols scale oh starter a. cbn.
  rewrite length_map, length_combine, length_map. lia.
Qed.

(** [change_hamiltonian_other_scalar]: a complex matrix offered to the real strategy. *)
Lemma change_hamiltonian_other_scalar_witness :
  ham_is (inr [[(0, 1)]]) = false /\
  change_hamiltonian strategy3 (inr [[(0, 1)]]) = (false, strategy3).
Proof.
  split; [reflexivity|].
  apply (change_hamiltonian_other_scalar strategy3 (inr [[(0, 1)]])). reflexivity.
Defined.

(** [change_hamiltonian_same_scalar]: a two-site matrix replaces the chain;
    the configuration asks for automatic bounds. *)
Lemma change_hamiltonian_same_scalar_witness :
  ham_is (inl [[0; 3]; [3; 0]]) = true /\
  exists this',
    change_hamiltonian strategy3 (inl [[0; 3]; [3; 0]]) = (true, this') /\
    hamiltonian this' = [[0; 3]; [3; 0]] /\
    optimized_hamiltonian this' = ([[0; 3]; [3; 0]], Build_Indices (-1) []) /\
    bounds this' = (-3, 3) /\
    stats this' = stats strategy3.
Proof.
  split; [reflexivity|].
  destruct (change_hamiltonian_same_scalar strategy3 (inl [[0; 3]; [3; 0]]) eq_refl)
    as (this' & Hcall & Hham & Hopt & Hauto & _ & _ & Hstats).
  exists this'. repeat split; try assumption.
  apply Hauto. reflexivity.
Defined.

(** [StrategyTemplate_new_invalid_range]: the range [3, 1]. *)
Lemma StrategyTemplate_new_invalid_range_witness :
  config_real_gt (min_energy (config_range 3 1)) (max_energy (config_range 3 1)) = true /\
  StrategyTemplate_new (E := engine) chain3 (config_range 3 1)
  = Throw (invalid_argument "KPM: Invalid energy range specified (min > max).").
Proof.
  split; [reflexivity|].
  apply (StrategyTemplate_new_invalid_range (E := engine) chain3 (config_range 3 1)).
  reflexivity.
Defined.

(** [ldos_repeatable]: the middle site of the chain, asked twice. *)
Lemma ldos_repeatable_witness :
  fst (ldos strategy3 10 13 1 [0; 1; -1] 4) = [28; 52; 52] /\
  fst (ldos (snd (ldos strategy3 10 13 1 [0; 1; -1] 4)) 20 27 1 [0; 1; -1] 4)
  = fst (ldos strategy3 10 13 1 [0; 1; -1] 4).
Proof.
  split; [reflexivity|].
  apply (ldos_repeatable exact_scaling_factors_cached exact_optimize_for_idempotent
                         strategy3 10 13 20 27 1 [0; 1; -1] 4).
Defined.

(** [dos_repeatable]: the density of states of the chain, asked twice. *)
Lemma dos_repeatable_witness :
  fst (dos strategy3 10 13 [0; 1] 4) = [76; 83] /\
  fst (dos (snd (dos strategy3 10 13 [0; 1] 4)) 20 27 [0; 1] 4)
  = fst (dos strategy3 10 13 [0; 1] 4).
Proof.
  split; [reflexivity|].
  apply (dos_repeatable exact_scaling_factors_cached exact_optimize_for_idempotent
                        strategy3 10 13 20 27 [0; 1] 4).
Defined.

(** [greens_is_front_of_greens_vector]: the element (1, 0) of the chain. *)
Lemma greens_is_front_of_greens_vector_witness :
  exists (g : ArrayXcd) (this' : Strategy),
    greens_vector strategy3 10 13 1 [0] [0; 1] 4 = Ok ([g], this') /\
    greens strategy3 10 13 1 0 [0; 1] 4 = Ok (g, this').
Proof.
  destruct (greens_is_front_of_greens_vector strategy3 10 13 1 0 [0; 1] 4)
    as (v & this' & Hvector & _ & Hone).
  destruct (Hone exact_one_sequence_per_column) as (g & -> & Hgreens).
  exists g, this'. split; assumption.
Defined.


End ExactEngine.

(** *** Moments whose storage is not cleared *)

Section FreshEngine.
Import Exact.


End FreshEngine.

End KpmFacts.

(** ** The three sections of a split loop *)

Module SimdLayout.
Import Simd IntFacts SimdFacts.

(** Whether [p + i] has [align_bytes] alignment only depends on the address modulo 16. *)
Lemma aligned_iff sizeof_scalar p i :
  is_aligned align_bytes (ptr_add sizeof_scalar p i) = true
  <-> (p + i * sizeof_scalar) mod 16 = 0.
Proof.
  unfold is_aligned, ptr_add, uintptr, align_bytes. rewrite Z.eqb_eq.
  assert (Hdiv : Z.divide 16 (2 ^ 64)) by (exists (2 ^ 60); reflexivity).
  rewrite !(Z.mod_mod_divide _ _ _ Hdiv). reflexivity.
Qed.

(** The peel loop stops at the first aligned element, or at [end]. *)
Lemma peel_loop_first_aligned sizeof_scalar p e fuel : forall pe,
  Int.in_range pe -> Int.in_range e -> pe <= e ->
  (Z.to_nat (e - pe) < fuel)%nat ->
  exists pe',
    peel_loop fuel sizeof_scalar p pe e = Some pe' /\ pe <= pe' <= e /\
    (pe' < e -> is_aligned align_bytes (ptr_add sizeof_scalar p pe') = true) /\
    (forall i, pe <= i < pe' -> is_aligned align_bytes (ptr_add sizeof_scalar p i) = false).
Proof.
  induction fuel as [|fuel IH]; intros pe Hpe He Hle Hfuel; [lia|].
  cbn [peel_loop].
  destruct (is_aligned align_bytes (ptr_add sizeof_scalar p pe)) eqn:Ha; cbn [negb andb].
  - exists pe. repeat split; try lia. intros _. exact Ha.
  - destruct (pe <? e) eqn:Hlt.
    + apply Z.ltb_lt in Hlt. unfold Int.in_range in *.
      rewrite add_small by (unfold Int.in_range; lia).
      destruct (IH (pe + 1)) as (pe' & Hrun & Hb & Hal & Hun); try lia.
      exists pe'. repeat split; try lia; try assumption.
      intros i Hi. destruct (Z.eq_dec i pe) as [->|]; [exact Ha | apply Hun; lia].
    + apply Z.ltb_ge in Hlt. exists pe. repeat split; try lia.
Qed.

(** The sections [split_loop] returns, when the distance is an [int]. *)
Lemma split_loop_sections sizeof_scalar step p start end_ :
  1 <= step ->
  Int.in_range start -> Int.in_range end_ -> start <= end_ ->
  end_ - start <= Int.INT_MAX ->
  exists pe,
    split_loop sizeof_scalar step p start end_
    = Some (Build_split_loop_t step start pe (end_ - (end_ - pe) mod step) end_) /\
    start <= pe <= end_ /\
    (pe < end_ -> is_aligned align_bytes (ptr_add sizeof_scalar p pe) = true) /\
    (forall i, start <= i < pe ->
               is_aligned align_bytes (ptr_add sizeof_scalar p i) = false).
Proof.
  intros Hstep Hs He Hle Hd.
  destruct (peel_loop_first_aligned sizeof_scalar p end_ (S (Z.to_nat (end_ - start))) start)
    as (pe & Hpeel & Hpe & Hal & Hun); try assumption; [lia|].
  assert (Hpe_in : Int.in_range pe) by (unfold Int.in_range in *; lia).
  pose proof (Z.mod_pos_bound (end_ - pe) step ltac:(lia)) as Hr.
  pose proof (vec_loop_spec step pe (S (Z.to_nat (2 * step))) end_ Hstep Hpe_in He
                ltac:(lia) ltac:(lia) ltac:(lia)) as Hvec.
  exists pe. unfold split_loop. rewrite Hpeel, Hvec. repeat split; try lia; assumption.
Qed.

(** The peel section holds the unaligned elements before the first aligned
    one, and the remainder is shorter than a vector: for [int] bounds
    [start <= end] with [end - start <= INT_MAX] and [step >= 1], no element
    of [[start, peel_end)] is aligned, [p + peel_end] is aligned unless
    [peel_end = end], and [end - vec_end < step]. *)
Theorem split_loop_peel_and_remainder sizeof_scalar step p start end_ :
  1 <= step ->
  Int.in_range start -> Int.in_range end_ -> start <= end_ ->
  end_ - start <= Int.INT_MAX ->
  exists s,
    split_loop sizeof_scalar step p start end_ = Some s /\
    (forall i, start <= i < peel_end s ->
               is_aligned align_bytes (ptr_add sizeof_scalar p i) = false) /\
    (peel_end s < end_ ->
     is_aligned align_bytes (ptr_add sizeof_scalar p (peel_end s)) = true) /\
    0 <= end_ - vec_end s < step.
Proof.
  intros Hstep Hs He Hle Hd.
  destruct (split_loop_sections sizeof_scalar step p start end_)
    as (pe & Hsplit & Hpe & Hal & Hun); try assumption.
  eexists. split; [exact Hsplit|]. cbn [peel_end vec_end].
  pose proof (Z.mod_pos_bound (end_ - pe) step ltac:(lia)).
  repeat split; try assumption; lia.
Qed.

(** [split_loop_peel_and_remainder] for [float]s at the address 4 on [[0, 13)]. *)
Lemma split_loop_peel_and_remainder_witness :
  exists s,
    split_loop 4 4 4 0 13 = Some s /\
    (forall i, 0 <= i < peel_end s -> is_aligned align_bytes (ptr_add 4 4 i) = false) /\
    (peel_end s < 13 -> is_aligned align_bytes (ptr_add 4 4 (peel_end s)) = true) /\
    0 <= 13 - vec_end s < 4.
Proof.
  apply (split_loop_peel_and_remainder 4 4 4 0 13);
    unfold Int.in_range, Int.INT_MIN, Int.INT_MAX; lia.
Defined.

(** When a vector spans a multiple of the alignment
    ([step * sizeof(scalar_t)] is a multiple of 16, as for the default
    [step = 16 / sizeof(scalar_t)]), every call of the vector body is at an
    aligned address. *)
Theorem vector_calls_aligned sizeof_scalar step p start end_ :
  1 <= step ->
  Int.in_range start -> Int.in_range end_ -> start <= end_ ->
  end_ - start <= Int.INT_MAX ->
  Z.divide align_bytes (step * sizeof_scalar) ->
  exists s calls,
    split_loop sizeof_scalar step p start end_ = Some s /\
    for_each s = Some calls /\
    forall i, In (fn_vector i) calls ->
              is_aligned align_bytes (ptr_add sizeof_scalar p i) = true.
Proof.
  intros Hstep Hs He Hle Hd [c Hc].
  destruct (split_loop_sections sizeof_scalar step p start end_)
    as (pe & Hsplit & Hpe & Hal & _); try assumption.
  pose proof (Z.mod_pos_bound (end_ - pe) step ltac:(lia)) as Hr.
  pose proof (Z.mod_le (end_ - pe) step ltac:(lia) ltac:(lia)) as Hr'.
  set (ve := end_ - (end_ - pe) mod step) in *.
  assert (Hdiv : ve - pe = (end_ - pe) / step * step).
  { unfold ve. pose proof (Z.div_mod (end_ - pe) step ltac:(lia)). lia. }
  assert (Hq : 0 <= (end_ - pe) / step) by (apply Z.div_pos; lia).
  assert (Hpe_in : Int.in_range pe) by (unfold Int.in_range in *; lia).
  assert (Hve_in : Int.in_range ve) by (unfold Int.in_range in *; lia).
  eexists. eexists. split; [exact Hsplit|]. split.
  - unfold for_each; cbn [Simd.start Simd.peel_end Simd.vec_end Simd.end_ Simd.step].
    rewrite (scalar_loop_spec pe (Z.to_nat (pe - start))) by (try assumption; lia).
    rewrite (vector_loop_spec step ve (Z.to_nat ((end_ - pe) / step))); try assumption;
      [|lia|nia].
    rewrite (scalar_loop_spec end_ (Z.to_nat (end_ - ve))) by (try assumption; lia).
    reflexivity.
  - intros i Hin. rewrite !in_app_iff, !in_map_iff in Hin.
    destruct Hin as [(x & Hx & _) | [(x & Hx & Hin) | (x & Hx & _)]]; try discriminate.
    injection Hx as ->.
    assert (Hstride : forall n lo, In i (strides step lo n) ->
                                   exists k, 0 <= k < Z.of_nat n /\ i = lo + k * step).
    { clear. induction n as [|n IH]; intros lo; cbn [strides In]; [tauto|].
      intros [<- | Hin].
      - exists 0. lia.
      - destruct (IH _ Hin) as (k & Hk & ->). exists (k + 1). lia. }
    destruct (Hstride _ _ Hin) as (k & Hk & ->).
    assert (pe < end_) by nia.
    apply aligned_iff. specialize (Hal ltac:(lia)). apply aligned_iff in Hal.
    replace (p + (pe + k * step) * sizeof_scalar)
      with (p + pe * sizeof_scalar + k * c * 16)
      by (unfold align_bytes in Hc; nia).
    rewrite Z_mod_plus_full. exact Hal.
Qed.

(** [vector_calls_aligned] for [double]s at the address 8 on [[0, 8)]. *)
Lemma vector_calls_aligned_witness :
  exists s calls,
    split_loop 8 2 8 0 8 = Some s /\
    for_each s = Some calls /\
    forall i, In (fn_vector i) calls -> is_aligned align_bytes (ptr_add 8 8 i) = true.
Proof.
  apply (vector_calls_aligned 8 2 8 0 8);
    try (unfold Int.in_range, Int.INT_MIN, Int.INT_MAX; lia).
  exists 1. reflexivity.
Defined.

(** [split_loop_returns] where the distance overflows: the loops still end. *)
Lemma split_loop_returns_witness :
  exists s, split_loop 4 3 (2 ^ 34) Int.INT_MIN Int.INT_MAX = Some s.
Proof.
  apply (split_loop_returns 4 3 (2 ^ 34) Int.INT_MIN Int.INT_MAX);
    unfold Int.in_range, Int.INT_MIN, Int.INT_MAX; lia.
Defined.

End SimdLayout.

(** ** Gather and complex arithmetic on vectors *)

Module SimdOpsFacts.
Import Simd SimdOps.

Section Gather.
Context {T : Type} (zero : T).

Lemma Gather_loop_float32 (data : Z -> T) (indices : Z -> Z) (n : nat) : forall i,
  flat_map lanes (Gather_loop (Gather_float32x4 zero data) (index_step 4 4 4) n i indices)
  = map (fun k => data (indices k)) (zrange (4 * i) (4 * n)).
Proof.
  change (index_step 4 4 4) with 4.
  induction n as [|n IH]; intros i; [reflexivity|].
  replace (4 * S n)%nat with (S (S (S (S (4 * n))))) by lia.
  cbn [Gather_loop flat_map zrange map]. rewrite IH.
  unfold Gather_float32x4, _mm_unpacklo_ps, _mm_load_ss, lanes. cbn [app].
  replace (4 * i + 1 + 1 + 1 + 1) with (4 * (i + 1)) by lia.
  repeat (f_equal; try lia).
Qed.

Lemma Gather_loop_float32_complex (data : Z -> T * T) (indices : Z -> Z) (n : nat) : forall i,
  flat_map lanes
    (Gather_loop (Gather_float32x4_complex zero data) (index_step 4 4 8) n i indices)
  = interleave (map (fun k => data (indices k)) (zrange (2 * i) (2 * n))).
Proof.
  change (index_step 4 4 8) with 2.
  induction n as [|n IH]; intros i; [reflexivity|].
  replace (2 * S n)%nat with (S (S (2 * n))) by lia.
  cbn [Gather_loop flat_map zrange map]. rewrite IH.
  unfold Gather_float32x4_complex, _mm_castpd_ps, _mm_loadh_pd, _mm_load_sd, lanes, interleave.
  cbn [flat_map app fst snd].
  replace (2 * i + 1 + 1) with (2 * (i + 1)) by lia.
  replace (i * 2 + 0) with (2 * i) by lia. replace (i * 2 + 1) with (2 * i + 1) by lia.
  destruct (data (indices (2 * i))) as [re0 im0], (data (indices (2 * i + 1))) as [re1 im1].
  reflexivity.
Qed.

(** [gather<Vec>(data, indices)] is [v[i] = data[indices[i]]] for [i < N]:
    for [float] vectors of [4 * vec_length] lanes, for the same vectors
    filled with [2 * vec_length] [std::complex<float>] (real part, then
    imaginary part), for [float64x2] filled with two [double]s, and for
    [float64x2] filled with one [std::complex<double>]. *)
Theorem gather_is_indexed_load (vec_length : nat) (indices : Z -> Z)
    (data : Z -> T) (cdata : Z -> T * T) :
  flat_map lanes (Gather_float32 zero vec_length data indices)
  = map (fun i => data (indices i)) (zrange 0 (4 * vec_length)) /\
  flat_map lanes (Gather_float32_complex zero vec_length cdata indices)
  = interleave (map (fun i => cdata (indices i)) (zrange 0 (2 * vec_length))) /\
  lanes64 (Gather_float64x2 zero data indices)
  = map (fun i => data (indices i)) (zrange 0 2) /\
  lanes64 (Gather_float64x2_complex cdata indices)
  = interleave (map (fun i => cdata (indices i)) (zrange 0 1)).
Proof.
  split; [apply (Gather_loop_float32 data indices vec_length 0)|].
  split; [apply (Gather_loop_float32_complex cdata indices vec_length 0)|].
  split; reflexivity.
Qed.

End Gather.

Section Arithmetic.
Context {T : Type} (add : T -> T -> T) (neg : T -> T) (mul : T -> T -> T).

(** [addsub(a, b)] subtracts in the even lanes and adds in the odd ones
    ([r0 = a0 - b0], [r1 = a1 + b1], ...), for vectors of a multiple of four
    lanes; the difference is computed as [a + (-b)]. *)
Theorem addsub_alternates (n : nat) : forall a b : Vec,
  length a = (4 * n)%nat -> length b = (4 * n)%nat ->
  addsub add neg a b = alternate add neg a b.
Proof.
  induction n as [|n IH]; intros a b Ha Hb.
  - destruct a; [reflexivity | discriminate].
  - destruct a as [|a0 [|a1 [|a2 [|a3 a]]]]; try (cbn in Ha; lia).
    destruct b as [|b0 [|b1 [|b2 [|b3 b]]]]; try (cbn in Hb; lia).
    specialize (IH a b ltac:(cbn in Ha; lia) ltac:(cbn in Hb; lia)).
    unfold addsub, vadd, vneg in *. cbn [map shuffle4x2 nth lanewise alternate].
    rewrite IH. reflexivity.
Qed.

Lemma complex_mul_interleaved (n : nat) : forall ps qs : list (T * T),
  length ps = (2 * n)%nat -> length qs = (2 * n)%nat ->
  complex_mul add neg mul (interleave ps) (interleave qs)
  = interleave (map (fun pq => complex_product add neg mul (fst pq) (snd pq)) (combine ps qs)).
Proof.
  induction n as [|n IH]; intros ps qs Hp Hq.
  - destruct ps; [reflexivity | discriminate].
  - destruct ps as [|[a b] [|[a' b'] ps]]; try (cbn in Hp; lia).
    destruct qs as [|[x y] [|[x' y'] qs]]; try (cbn in Hq; lia).
    specialize (IH ps qs ltac:(cbn in Hp; lia) ltac:(cbn in Hq; lia)).
    unfold complex_mul, addsub, vadd, vmul, vneg, interleave, complex_product in *.
    cbn [flat_map app fst snd permute2 nth lanewise map shuffle4x2 combine].
    cbv zeta in IH. rewrite IH. reflexivity.
Qed.

(** [complex_mul(ab, xy)] multiplies the complex numbers of [ab] by those of
    [xy], one by one: [(a + ib) (x + iy) = (ax - by) + i (ay + bx)], for
    vectors of an even number of complex numbers. *)
Theorem complex_mul_is_product (n : nat) (ps qs : list (T * T)) :
  length ps = (2 * n)%nat -> length qs = (2 * n)%nat ->
  complex_mul add neg mul (interleave ps) (interleave qs)
  = interleave (map (fun pq => complex_product add neg mul (fst pq) (snd pq)) (combine ps qs)).
Proof. apply complex_mul_interleaved. Qed.

Lemma vadd_interleaved (f : (T * T) * (T * T) -> T * T) :
  forall ps qs cs : list (T * T),
  length qs = length ps -> length cs = length ps ->
  vadd add (interleave (map f (combine ps qs))) (interleave cs)
  = interleave (map (fun pqc => complex_sum add (f (fst pqc)) (snd pqc))
                    (combine (combine ps qs) cs)).
Proof.
  induction ps as [|p ps IH]; intros qs cs Hq Hc.
  - reflexivity.
  - destruct qs as [|q qs]; [discriminate|]. destruct cs as [|c cs]; [discriminate|].
    specialize (IH qs cs ltac:(cbn in Hq; lia) ltac:(cbn in Hc; lia)).
    unfold interleave, vadd, complex_sum in *.
    cbn [combine map flat_map app fst snd lanewise]. rewrite IH. reflexivity.
Qed.

End Arithmetic.

Section Overloads.
Context {T : Type} (add : T -> T -> T) (neg : T -> T) (mul : T -> T -> T) (sub : T -> T -> T).

(** The products [aa * xy] of [complex_mul] fill as many lanes as the vectors have. *)
Lemma complex_mul_lanes : forall ps qs : list (T * T),
  length qs = length ps ->
  length (vmul mul (permute2 0 0 (interleave ps)) (interleave qs)) = (2 * length ps)%nat.
Proof.
  induction ps as [|[a b] ps IH]; intros qs Hq.
  - reflexivity.
  - destruct qs as [|[x y] qs]; [discriminate|].
    specialize (IH qs ltac:(cbn in Hq; lia)).
    unfold vmul, interleave in *.
    cbn [flat_map app fst snd permute2 nth lanewise length]. rewrite IH. cbn [length]. lia.
Qed.

(** [complex_mul] with an intrinsic [addsub], on any number of complex numbers. *)
Lemma complex_mul_intrinsic_interleaved :
  (forall x y, sub x y = add x (neg y)) ->
  forall ps qs : list (T * T),
  length qs = length ps ->
  _mm_addsub add sub
    (vmul mul (permute2 0 0 (interleave ps)) (interleave qs))
    (vmul mul (permute2 1 1 (interleave ps)) (permute2 1 0 (interleave qs)))
  = interleave (map (fun pq => complex_product add neg mul (fst pq) (snd pq)) (combine ps qs)).
Proof.
  intros Hsub. induction ps as [|[a b] ps IH]; intros qs Hq.
  - reflexivity.
  - destruct qs as [|[x y] qs]; [discriminate|].
    specialize (IH qs ltac:(cbn in Hq; lia)).
    unfold vmul, interleave, complex_product in *.
    cbn [flat_map app fst snd permute2 nth lanewise map combine _mm_addsub].
    rewrite IH, Hsub. reflexivity.
Qed.

(** [madd_rc] for a complex scalar is [a * b + c] on the complex numbers of
    the three vectors, one by one, whichever overload of [addsub] the call
    in [complex_mul] resolves to: an intrinsic one, as for [float64x2]
    holding one [std::complex<double>] and [float32x4] holding two
    [std::complex<float>] under SSE3, or else the one written with
    [shuffle4x2], on vectors holding an even number of complex numbers.
    The lanes' [a - b] is [a + (-b)]. *)
Theorem madd_rc_complex_is_multiply_add (use_sse3 use_avx : bool) (V : VecTemplate)
    (ps qs cs : list (T * T)) :
  (forall x y, sub x y = add x (neg y)) ->
  length qs = length ps -> length cs = length ps ->
  addsub_is_intrinsic use_sse3 use_avx V (2 * length ps) = true \/ Nat.Even (length ps) ->
  madd_rc_complex add neg mul sub use_sse3 use_avx V
                  (interleave ps) (interleave qs) (interleave cs)
  = interleave
      (map (fun pqc => complex_sum add (complex_product add neg mul (fst (fst pqc)) (snd (fst pqc)))
                                   (snd pqc))
           (combine (combine ps qs) cs)).
Proof.
  intros Hsub Hq Hc Hcase.
  unfold madd_rc_complex, complex_mul_resolved, addsub_resolved. cbv zeta.
  rewrite (complex_mul_lanes ps qs Hq).
  rewrite <- (vadd_interleaved add
                (fun pq => complex_product add neg mul (fst pq) (snd pq)) ps qs cs Hq Hc).
  f_equal.
  destruct (addsub_is_intrinsic use_sse3 use_avx V (2 * length ps)) eqn:Hintrinsic.
  - apply (complex_mul_intrinsic_interleaved Hsub ps qs Hq).
  - destruct Hcase as [Habs | [k Hk]]; [discriminate|].
    apply (complex_mul_interleaved add neg mul k ps qs); lia.
Qed.

End Overloads.

(** [addsub_alternates] and [complex_mul_is_product] on integers:
    [(1 + 2i) (3 + 4i) = -5 + 10i] and [(0 + i) (0 + i) = -1]. *)
Lemma addsub_alternates_witness :
  addsub Z.add Z.opp [10; 20; 30; 40] [1; 2; 3; 4] = [9; 22; 27; 44].
Proof.
  rewrite (addsub_alternates Z.add Z.opp 1 [10; 20; 30; 40] [1; 2; 3; 4] eq_refl eq_refl).
  reflexivity.
Defined.

Lemma complex_mul_is_product_witness :
  complex_mul Z.add Z.opp Z.mul [1; 2; 0; 1] [3; 4; 0; 1] = [-5; 10; -1; 0].
Proof.
  exact (complex_mul_is_product Z.add Z.opp Z.mul 1 [(1, 2); (0, 1)] [(3, 4); (0, 1)]
                                eq_refl eq_refl).
Defined.

Lemma Z_sub_add_opp : forall x y : Z, x - y = x + - y.
Proof. intros x y. reflexivity. Qed.

(** [madd_rc_complex_is_multiply_add] on integers: [(1 + 2i) (3 + 4i) + (5 + 5i) = 15i]
    in a [float64x2] with SSE3, where [addsub] is [_mm_addsub_pd], and the
    same with [(0 + i) (0 + i) + (1 + i) = i] beside it in a [float32x4]
    without SSE3, where [addsub] is written with [shuffle4x2]. *)
Lemma madd_rc_complex_is_multiply_add_witness :
  addsub_is_intrinsic true false float64 2 = true /\
  madd_rc_complex Z.add Z.opp Z.mul Z.sub true false float64 [1; 2] [3; 4] [5; 5] = [0; 15] /\
  addsub_is_intrinsic false false float32 4 = false /\
  madd_rc_complex Z.add Z.opp Z.mul Z.sub false false float32
                  [1; 2; 0; 1] [3; 4; 0; 1] [5; 5; 1; 1] = [0; 15; 0; 1].
Proof.
  split; [reflexivity|]. split; [|split; [reflexivity|]].
  - exact (madd_rc_complex_is_multiply_add Z.add Z.opp Z.mul Z.sub true false float64
             [(1, 2)] [(3, 4)] [(5, 5)] Z_sub_add_opp eq_refl eq_refl (or_introl eq_refl)).
  - exact (madd_rc_complex_is_multiply_add Z.add Z.opp Z.mul Z.sub false false float32
             [(1, 2); (0, 1)] [(3, 4); (0, 1)] [(5, 5); (1, 1)] Z_sub_add_opp eq_refl eq_refl
             (or_intror (ex_intro _ 1%nat eq_refl))).
Defined.

End SimdOpsFacts.

(** ** What a constructed system holds *)

Module SysContent.
Import Cpp Sys SysFacts SysTrace.

Section Content.
Context {K : Collaborators}.

Lemma System_new_populated f symmetry gens system :
  System_new f symmetry gens = Ok system ->
  System_populated f symmetry gens = Ok system /\ num_sites system <> 0.
Proof.
  unfold System_new.
  destruct (System_populated f symmetry gens) as [this|e]; cbn [bind]; [|discriminate].
  destruct (num_sites this =? 0) eqn:Hn; [discriminate|].
  intros [= <-]. split; [reflexivity | apply Z.eqb_neq; exact Hn].
Qed.

(** A system the constructor yields has exactly one site per finalized
    index of the foundation: hopping generators and boundaries add none. *)
Theorem System_new_num_sites f symmetry gens system :
  System_new f symmetry gens = Ok system ->
  num_sites system = Z.of_nat (finalized_size f) /\ (1 <= finalized_size f)%nat.
Proof.
  intros Hnew. apply System_new_populated in Hnew as [Hpop Hn].
  pose proof (System_populated_num_sites _ _ _ _ Hpop) as Hsize.
  split; [exact Hsize | lia].
Qed.

(** *** Positions *)

Lemma populate_site_other f system site k :
  (0 <= finalized_index f site -> Z.to_nat (finalized_index f site) <> k) ->
  positions (populate_site f system site) !! k = positions system !! k.
Proof.
  intros Hk. unfold populate_site.
  destruct (finalized_index f site <? 0) eqn:Hneg; [reflexivity|].
  apply Z.ltb_ge in Hneg. cbn [positions].
  apply list_lookup_insert_ne. apply Hk. exact Hneg.
Qed.

Lemma populate_sites_other f l k : forall system,
  (forall site, In site l -> 0 <= finalized_index f site ->
                Z.to_nat (finalized_index f site) <> k) ->
  positions (fold_left (populate_site f) l system) !! k = positions system !! k.
Proof.
  induction l as [|x l IH]; intros system Hk; cbn [fold_left]; [reflexivity|].
  rewrite IH by (intros site Hin; apply Hk; right; exact Hin).
  apply populate_site_other. apply Hk. left. reflexivity.
Qed.

Lemma populate_sites_lookup f l : forall system site,
  List.NoDup (map (finalized_index f) (List.filter (fun s => 0 <=? finalized_index f s) l)) ->
  In site l -> 0 <= finalized_index f site ->
  (Z.to_nat (finalized_index f site) < length (positions system))%nat ->
  positions (fold_left (populate_site f) l system) !! Z.to_nat (finalized_index f site)
  = Some (get_position site).
Proof.
  induction l as [|x l IH]; intros system site Hnd Hin Hvalid Hlt; [destruct Hin|].
  cbn [fold_left]. cbn [List.filter] in Hnd.
  destruct (0 <=? finalized_index f x) eqn:Hx.
  - cbn [map] in Hnd. apply List.NoDup_cons_iff in Hnd as [Hnotin Hnd].
    destruct Hin as [-> | Hin].
    + rewrite populate_sites_other.
      * unfold populate_site.
        replace (finalized_index f site <? 0) with false by (symmetry; apply Z.ltb_ge; lia).
        cbn [positions]. apply list_lookup_insert_eq. exact Hlt.
      * intros s Hs Hsv Heq. apply Hnotin. apply in_map_iff. exists s. split.
        -- apply Z2Nat.inj in Heq; lia.
        -- apply filter_In. split; [exact Hs | apply Z.leb_le; exact Hsv].
    + apply IH; try assumption. rewrite populate_site_positions. exact Hlt.
  - destruct Hin as [-> | Hin]; [apply Z.leb_gt in Hx; lia|].
    apply IH; try assumption. rewrite populate_site_positions. exact Hlt.
Qed.

(** When the valid sites of the foundation have distinct finalized indices,
    the system holds the position of each valid site at its finalized index. *)
Theorem System_new_positions f symmetry gens system :
  System_new f symmetry gens = Ok system ->
  List.NoDup (map (finalized_index f)
                  (List.filter (fun s => 0 <=? finalized_index f s) (sites f))) ->
  forall site,
    In site (sites f) ->
    0 <= finalized_index f site < Z.of_nat (finalized_size f) ->
    positions system !! Z.to_nat (finalized_index f site) = Some (get_position site).
Proof.
  intros Hnew Hnd site Hin Hvalid.
  apply System_new_populated in Hnew as [Hpop _].
  unfold System_populated in Hpop. cbv zeta in Hpop.
  destruct (populate_system _ f) as [system1|e] eqn:Hsys; cbn [bind] in Hpop; [|discriminate].
  apply extra_hoppings_positions in Hpop. rewrite Hpop.
  assert (Hp1 : positions system1 !! Z.to_nat (finalized_index f site)
                = Some (get_position site)).
  { unfold populate_system in Hsys. cbv zeta in Hsys.
    destruct (cs_verify _ _); cbn [bind] in Hsys; [|discriminate].
    injection Hsys as <-.
    apply populate_sites_lookup; try assumption; [lia|].
    cbn [positions]. rewrite resize_length. lia. }
  destruct (symmetry_enabled symmetry); [|exact Hp1].
  rewrite populate_boundaries_positions. exact Hp1.
Qed.

(** *** Boundaries *)

Lemma populate_sites_boundaries f l : forall system,
  boundaries (fold_left (populate_site f) l system) = boundaries system.
Proof.
  induction l as [|x l IH]; intros system; cbn [fold_left]; [reflexivity|].
  rewrite IH. unfold populate_site. destruct (finalized_index f x <? 0); reflexivity.
Qed.

Lemma populate_system_boundaries system f system' :
  populate_system system f = Ok system' -> boundaries system' = boundaries system.
Proof.
  unfold populate_system. cbv zeta.
  destruct (cs_verify _ _); cbn [bind]; [|discriminate].
  intros [= <-]. rewrite populate_sites_boundaries. reflexivity.
Qed.

Lemma extra_hoppings_boundaries gens : forall system system',
  for_range add_extra_hoppings gens system = Ok system' ->
  boundaries system' = boundaries system.
Proof.
  induction gens as [|gen gens IH]; intros system system'; cbn [for_range].
  - intros [= <-]. reflexivity.
  - unfold add_extra_hoppings at 1. cbv zeta.
    destruct (hopping_family_id _ _); cbn [bind]; [|discriminate].
    intros H. rewrite (IH _ _ H). reflexivity.
Qed.

Lemma populate_boundaries_kept f symmetry : forall system,
  Forall (fun b => 0 < hb_nnz (boundary_hopping_blocks b)) (boundaries system) ->
  Forall (fun b => 0 < hb_nnz (boundary_hopping_blocks b))
         (boundaries (populate_boundaries system f symmetry)) /\
  (length (boundaries (populate_boundaries system f symmetry))
   <= length (boundaries system) + length (translations symmetry f))%nat.
Proof.
  unfold populate_boundaries.
  induction (translations symmetry f) as [|t l IH]; intros system Hall; cbn [fold_left].
  - split; [exact Hall | cbn; lia].
  - assert (Hstep : Forall (fun b => 0 < hb_nnz (boundary_hopping_blocks b))
                           (boundaries (add_translation f system t)) /\
                    (length (boundaries (add_translation f system t))
                     <= S (length (boundaries system)))%nat).
    { unfold add_translation. destruct t as [[boundary_slice shift_index] shift_lenght].
      destruct (0 <? hb_nnz _) eqn:Hnnz; cbn [boundaries].
      - split; [|rewrite length_app; cbn; lia].
        apply Forall_app. split; [exact Hall|].
        constructor; [|constructor]. cbn [boundary_hopping_blocks].
        apply Z.ltb_lt. exact Hnnz.
      - split; [exact Hall | lia]. }
    destruct Hstep as [Hall' Hlen]. destruct (IH _ Hall') as [Hfinal Hlen'].
    split; [exact Hfinal | cbn [length]; lia].
Qed.

(** A constructed system keeps a boundary only if it holds a hopping: every
    stored boundary has [hopping_blocks.nnz() > 0], there is at most one per
    translation, and none without a symmetry. *)
Theorem System_new_boundaries f symmetry gens system :
  System_new f symmetry gens = Ok system ->
  Forall (fun b => 0 < hb_nnz (boundary_hopping_blocks b)) (boundaries system) /\
  (length (boundaries system) <= length (translations symmetry f))%nat /\
  (symmetry_enabled symmetry = false -> boundaries system = []).
Proof.
  intros Hnew. apply System_new_populated in Hnew as [Hpop _].
  unfold System_populated in Hpop. cbv zeta in Hpop.
  destruct (populate_system _ f) as [system1|e] eqn:Hsys; cbn [bind] in Hpop; [|discriminate].
  apply populate_system_boundaries in Hsys. cbn [System_of_lattice boundaries] in Hsys.
  apply extra_hoppings_boundaries in Hpop. rewrite Hpop.
  destruct (symmetry_enabled symmetry).
  - destruct (populate_boundaries_kept f symmetry system1) as [Hall Hlen].
    { rewrite Hsys. constructor. }
    rewrite Hsys in Hlen. cbn [length] in Hlen.
    split; [exact Hall|]. split; [lia | discriminate].
  - rewrite Hsys. split; [constructor|]. split; [cbn; lia | reflexivity].
Qed.

(** *** Hoppings *)

Lemma add_neighbors_kept f index ns : forall hb,
  fold_left (add_neighbor f index) ns hb = fold_left add_hopping (kept_hoppings f index ns) hb.
Proof.
  induction ns as [|[[neighbor family_id] is_conjugate] ns IH]; intros hb; [reflexivity|].
  cbn [fold_left kept_hoppings flat_map]. fold (kept_hoppings f index ns).
  rewrite fold_left_app, IH. unfold add_neighbor at 1.
  destruct (finalized_index f neighbor <? 0); [reflexivity|].
  destruct is_conjugate; reflexivity.
Qed.

Lemma populate_sites_hoppings f l : forall system,
  hopping_blocks (fold_left (populate_site f) l system)
  = fold_left add_hopping (flat_map (site_hoppings f) l) (hopping_blocks system).
Proof.
  induction l as [|x l IH]; intros system; [reflexivity|].
  cbn [fold_left flat_map]. rewrite IH, fold_left_app. f_equal.
  unfold populate_site, site_hoppings.
  destruct (finalized_index f x <? 0); [reflexivity|].
  cbn [hopping_blocks]. apply add_neighbors_kept.
Qed.

(** [populate_system] fills the hopping blocks by [add(family, from, to)]
    calls only: each is a hopping of a site of the foundation to one of its
    neighbors, both with a valid (non-negative) finalized index, and none is
    a conjugate hopping. *)
Theorem populate_system_hoppings system f system' :
  populate_system system f = Ok system' ->
  exists added : list (Z * Z * Z),
    hopping_blocks system'
    = fold_left add_hopping added
        (hb_reserve (max_hoppings_per_family f)
                    (hb_make (finalized_size f) (hop_name_map (get_lattice f)))) /\
    Forall (fun h => let '(family_id, i, j) := h in
                     0 <= i /\ 0 <= j /\
                     exists site neighbor,
                       In site (sites f) /\
                       In (neighbor, family_id, false) (neighbors f site) /\
                       i = finalized_index f site /\ j = finalized_index f neighbor)
           added.
Proof.
  unfold populate_system. cbv zeta.
  destruct (cs_verify _ _); cbn [bind]; [|discriminate].
  intros [= <-]. exists (flat_map (site_hoppings f) (sites f)).
  split; [rewrite populate_sites_hoppings; reflexivity|].
  apply List.Forall_forall. intros [[family_id i] j] Hin.
  apply in_flat_map in Hin as (site & Hsite & Hin).
  unfold site_hoppings in Hin.
  destruct (finalized_index f site <? 0) eqn:Hs; [destruct Hin|].
  apply Z.ltb_ge in Hs. unfold kept_hoppings in Hin.
  apply in_flat_map in Hin as ([[neighbor fam] conj] & Hn & Hin).
  destruct (finalized_index f neighbor <? 0) eqn:Hnb; [destruct Hin|].
  destruct conj; cbn [orb] in Hin; [destruct Hin|].
  destruct Hin as [[= <- <- <-] | []].
  apply Z.ltb_ge in Hnb. repeat split; try assumption.
  exists site, neighbor. repeat split; assumption.
Qed.

End Content.

(** [System_new_num_sites], [System_new_positions], [System_new_boundaries]
    and [populate_system_hoppings] on the chain of three sites. *)
Lemma System_new_num_sites_witness :
  exists system,
    System_new (K := Chain.collaborators) Chain.three_sites true ["t"%string] = Ok system /\
    num_sites system = 3.
Proof.
  eexists. split; [vm_compute; reflexivity|].
  apply (System_new_num_sites (K := Chain.collaborators) Chain.three_sites true ["t"%string]).
  vm_compute. reflexivity.
Defined.

Lemma System_new_positions_witness :
  exists system,
    System_new (K := Chain.collaborators) Chain.three_sites true ["t"%string] = Ok system /\
    positions system !! 2%nat = Some 2.
Proof.
  eexists. split; [vm_compute; reflexivity|].
  apply (System_new_positions (K := Chain.collaborators) Chain.three_sites true ["t"%string]
           _ eq_refl ltac:(vm_compute; repeat constructor; cbn; intuition lia) (2, 2)).
  - cbn. tauto.
  - cbn. lia.
Defined.

Lemma System_new_boundaries_witness :
  exists system,
    System_new (K := Chain.collaborators) Chain.three_sites true ["t"%string] = Ok system /\
    Forall (fun b => 0 < Sys.hb_nnz (boundary_hopping_blocks b)) (boundaries system) /\
    (length (boundaries system) <= 1)%nat.
Proof.
  eexists. split; [vm_compute; reflexivity|].
  destruct (System_new_boundaries (K := Chain.collaborators)
              Chain.three_sites true ["t"%string] _ eq_refl) as (Hall & Hlen & _).
  split; [exact Hall | exact Hlen].
Defined.

Lemma populate_system_hoppings_witness :
  exists system' added,
    populate_system (System_of_lattice (K := Chain.collaborators) tt) Chain.three_sites
    = Ok system' /\
    hopping_blocks system'
    = fold_left add_hopping added (@hb_make Chain.collaborators 3%nat tt) /\
    Forall (fun h => 0 <= snd (fst h) /\ 0 <= snd h) added.
Proof.
  destruct (populate_system (System_of_lattice (K := Chain.collaborators) tt)
                            Chain.three_sites) as [system'|e] eqn:Hpop;
    [|vm_compute in Hpop; discriminate].
  destruct (populate_system_hoppings _ _ _ Hpop) as (added & Hb & Hall).
  exists system', added. split; [reflexivity|]. split; [exact Hb|].
  eapply List.Forall_impl; [|exact Hall]. intros [[fam i] j] (Hi & Hj & _). split; assumption.
Defined.

End SysContent.

(** ** Hamiltonian indices and the nearest site *)

Module SysQueryFacts.
Import Cpp Sys SysQuery.

Section Facts.
Context {K : Collaborators} {G : Geometry}.

(** *** [to_hamiltonian_index] *)

(** [to_hamiltonian_index] answers from the first sublattice whose range
    [sys_start <= system_index < sys_end] holds the index, and throws
    [std::runtime_error] exactly when no sublattice does. *)
Theorem to_hamiltonian_index_first_match (system : System) (system_index : Z) :
  match to_hamiltonian_index system system_index with
  | Ok h =>
      exists before sub after,
        sublattices (compressed_sublattices system) = before ++ sub :: after /\
        (forall s, In s before -> ~ (sys_start s <= system_index < sys_end s)) /\
        sys_start sub <= system_index < sys_end sub /\
        h = ham_start sub + (system_index - sys_start sub) * num_orbitals sub
  | Throw e =>
      e = runtime_error "to_hamiltonian_index: this should never happen" /\
      forall s, In s (sublattices (compressed_sublattices system)) ->
                ~ (sys_start s <= system_index < sys_end s)
  end.
Proof.
  unfold to_hamiltonian_index.
  induction (sublattices (compressed_sublattices system)) as [|sub l IH];
    cbn [to_hamiltonian_index_loop].
  - split; [reflexivity | intros s []].
  - destruct ((sys_start sub <=? system_index) && (system_index <? sys_end sub)) eqn:Hin.
    + apply andb_true_iff in Hin as [H1 H2]. apply Z.leb_le in H1. apply Z.ltb_lt in H2.
      exists [], sub, l. repeat split; try assumption. intros s [].
    + assert (Hout : ~ (sys_start sub <= system_index < sys_end sub)).
      { intros [H1 H2]. apply Z.leb_le in H1. apply Z.ltb_lt in H2.
        rewrite H1, H2 in Hin. discriminate. }
      destruct (to_hamiltonian_index_loop l system_index) as [h|e].
      * destruct IH as (before & sub' & after & -> & Hbefore & Hsub & Hh).
        exists (sub :: before), sub', after. repeat split; try assumption; try tauto.
        intros s [<- | Hs]; [exact Hout | apply Hbefore; exact Hs].
      * destruct IH as [-> Hnone]. split; [reflexivity|].
        intros s [<- | Hs]; [exact Hout | apply Hnone; exact Hs].
Qed.

Lemma fold_ham_size (l : list SublatticeRange) : forall a,
  fold_left (fun result sub => result + ham_size sub) l a
  = a + fold_left (fun result sub => result + ham_size sub) l 0.
Proof.
  induction l as [|sub l IH]; intros a; cbn [fold_left]; [lia|].
  rewrite (IH (a + ham_size sub)), (IH (0 + ham_size sub)). lia.
Qed.

Lemma contiguous_size (l : list SublatticeRange) : forall sys ham,
  contiguous sys ham l ->
  sys <= sites_end sys l /\ 0 <= fold_left (fun result sub => result + ham_size sub) l 0.
Proof.
  induction l as [|sub l IH]; intros sys ham Hc; cbn [sites_end fold_left]; [lia|].
  destruct Hc as (Hs & Hle & Hh & Hn & Hsize & Hrest).
  destruct (IH _ _ Hrest) as [He Hpos]. rewrite fold_ham_size. nia.
Qed.

(** In contiguous sublattices an index of the system has its rows inside
    the Hamiltonian, from its sublattice's [ham_start] on. *)
Lemma to_hamiltonian_index_loop_range (l : list SublatticeRange) : forall sys ham i,
  contiguous sys ham l -> sys <= i < sites_end sys l ->
  exists h,
    to_hamiltonian_index_loop l i = Ok h /\
    ham <= h < ham + fold_left (fun result sub => result + ham_size sub) l 0.
Proof.
  induction l as [|sub l IH]; intros sys ham i Hc Hi; cbn [sites_end] in Hi; [lia|].
  destruct Hc as (Hs & Hle & Hh & Hn & Hsize & Hrest).
  cbn [to_hamiltonian_index_loop fold_left]. rewrite fold_ham_size.
  destruct (contiguous_size _ _ _ Hrest) as [_ Hpos].
  destruct (i <? sys_end sub) eqn:Hlt.
  - apply Z.ltb_lt in Hlt.
    replace (sys_start sub <=? i) with true by (symmetry; apply Z.leb_le; lia).
    cbn [andb]. eexists. split; [reflexivity|]. nia.
  - apply Z.ltb_ge in Hlt. rewrite andb_false_r.
    destruct (IH (sys_end sub) (ham + ham_size sub) i Hrest ltac:(lia)) as (h & -> & Hb).
    exists h. split; [reflexivity|]. nia.
Qed.

Lemma to_hamiltonian_index_loop_increasing (l : list SublatticeRange) : forall sys ham i j,
  contiguous sys ham l -> sys <= i -> i < j -> j < sites_end sys l ->
  exists hi hj,
    to_hamiltonian_index_loop l i = Ok hi /\ to_hamiltonian_index_loop l j = Ok hj /\
    hi < hj.
Proof.
  induction l as [|sub l IH]; intros sys ham i j Hc Hi Hij Hj; cbn [sites_end] in Hj.
  - lia.
  - pose proof Hc as (Hs & Hle & Hh & Hn & Hsize & Hrest).
    destruct (contiguous_size _ _ _ Hrest) as [Hend _].
    destruct (Z.lt_ge_cases i (sys_end sub)) as [Hi1 | Hi1].
    + destruct (Z.lt_ge_cases j (sys_end sub)) as [Hj1 | Hj1].
      * cbn [to_hamiltonian_index_loop].
        replace (sys_start sub <=? i) with true by (symmetry; apply Z.leb_le; lia).
        replace (sys_start sub <=? j) with true by (symmetry; apply Z.leb_le; lia).
        replace (i <? sys_end sub) with true by (symmetry; apply Z.ltb_lt; lia).
        replace (j <? sys_end sub) with true by (symmetry; apply Z.ltb_lt; lia).
        cbn [andb]. eexists. eexists. split; [reflexivity|]. split; [reflexivity|]. nia.
      * destruct (to_hamiltonian_index_loop_range l (sys_end sub) (ham + ham_size sub) j Hrest
                    ltac:(lia)) as (hj & Hrun & Hb).
        cbn [to_hamiltonian_index_loop].
        replace (sys_start sub <=? i) with true by (symmetry; apply Z.leb_le; lia).
        replace (i <? sys_end sub) with true by (symmetry; apply Z.ltb_lt; lia).
        replace (j <? sys_end sub) with false by (symmetry; apply Z.ltb_ge; lia).
        rewrite andb_false_r. cbn [andb]. rewrite Hrun.
        eexists. exists hj. split; [reflexivity|]. split; [reflexivity|]. nia.
    + destruct (IH (sys_end sub) (ham + ham_size sub) i j Hrest Hi1 Hij Hj)
        as (hi & hj & Hri & Hrj & Hlt).
      cbn [to_hamiltonian_index_loop].
      replace (i <? sys_end sub) with false by (symmetry; apply Z.ltb_ge; lia).
      replace (j <? sys_end sub) with false by (symmetry; apply Z.ltb_ge; lia).
      rewrite !andb_false_r. exists hi, hj. repeat split; assumption.
Qed.

(** When the sublattices follow one another from 0 on, every index of the
    system below the end of the last sublattice has a Hamiltonian index
    between 0 and [hamiltonian_size()], and a larger index of the system has
    a larger index in the Hamiltonian. *)
Theorem to_hamiltonian_index_increasing (system : System) (i j : Z) :
  contiguous 0 0 (sublattices (compressed_sublattices system)) ->
  0 <= i -> i < j -> j < sites_end 0 (sublattices (compressed_sublattices system)) ->
  exists hi hj,
    to_hamiltonian_index system i = Ok hi /\
    to_hamiltonian_index system j = Ok hj /\
    0 <= hi /\ hi < hj /\ hj < hamiltonian_size system.
Proof.
  intros Hc Hi Hij Hj. unfold to_hamiltonian_index, hamiltonian_size.
  destruct (to_hamiltonian_index_loop_increasing _ 0 0 i j Hc Hi Hij Hj)
    as (hi & hj & Hri & Hrj & Hlt).
  destruct (to_hamiltonian_index_loop_range _ 0 0 i Hc ltac:(lia)) as (hi' & Hri' & Hbi).
  destruct (to_hamiltonian_index_loop_range _ 0 0 j Hc ltac:(lia)) as (hj' & Hrj' & Hbj).
  rewrite Hri in Hri'. rewrite Hrj in Hrj'. injection Hri' as <-. injection Hrj' as <-.
  exists hi, hj. repeat split; try assumption; lia.
Qed.

(** *** [find_nearest] *)

Lemma position_at_inside (system : System) (i : Z) :
  0 <= i < num_sites system -> exists p, position_at system i = Ok p.
Proof.
  intros Hi. unfold position_at, num_sites in *.
  replace (i <? 0) with false by (symmetry; apply Z.ltb_ge; lia).
  destruct (lookup_lt_is_Some_2 (positions system) (Z.to_nat i) ltac:(lia)) as [p ->].
  exists p. reflexivity.
Qed.

Lemma find_nearest_loop_nearest (system : System) (target : Cartesian) (lo : Z) :
  (forall x, distance_lt x x = false) ->
  (forall x y z, distance_lt x y = true -> distance_lt y z = true -> distance_lt x z = true) ->
  forall n i nearest,
    0 <= lo -> lo < i -> i + Z.of_nat n <= num_sites system ->
    nearest_of system target lo i nearest ->
    exists r, find_nearest_loop system target n i nearest = Ok r /\
              nearest_of system target lo (i + Z.of_nat n) r.
Proof.
  intros Hirr Htrans. induction n as [|n IH]; intros i nearest Hlo Hi Hn Hbest.
  - exists nearest. split; [reflexivity|]. replace (i + Z.of_nat 0) with i by lia. exact Hbest.
  - cbn [find_nearest_loop].
    destruct (position_at_inside system i ltac:(lia)) as [p Hp]. rewrite Hp. cbn [bind].
    destruct Hbest as (Hrange & (pr & Hpr & Hd) & Hmin).
    destruct (IH (i + 1)
                 (if distance_lt (distance p target) (snd nearest)
                  then (i, distance p target) else nearest)) as (r & Hrun & Hr); try lia.
    + destruct (distance_lt (distance p target) (snd nearest)) eqn:Hlt.
      * split; [cbn; lia|]. split; [exists p; split; [exact Hp | reflexivity]|].
        cbn [snd]. intros k pk Hk Hpk.
        destruct (Z.eq_dec k i) as [->|Hne].
        -- rewrite Hp in Hpk. injection Hpk as <-. apply Hirr.
        -- destruct (distance_lt (distance pk target) (distance p target)) eqn:Hk'; [|reflexivity].
           pose proof (Hmin k pk ltac:(lia) Hpk) as Hm.
           rewrite (Htrans _ _ _ Hk' Hlt) in Hm. discriminate.
      * split; [lia|]. split; [exists pr; split; assumption|].
        intros k pk Hk Hpk.
        destruct (Z.eq_dec k i) as [->|Hne].
        -- rewrite Hp in Hpk. injection Hpk as <-. exact Hlt.
        -- apply (Hmin k pk); [lia | exact Hpk].
    + exists r. split; [exact Hrun|]. replace (i + Z.of_nat (S n)) with (i + 1 + Z.of_nat n) by lia.
      exact Hr.
Qed.

Lemma find_nearest_in_range (system : System) (target : Cartesian) (name : string)
    (range_start range_end : Z) :
  (forall x, distance_lt x x = false) ->
  (forall x y z, distance_lt x y = true -> distance_lt y z = true -> distance_lt x z = true) ->
  find_nearest_range system name = Ok (range_start, range_end) ->
  0 <= range_start -> range_start < range_end -> range_end <= num_sites system ->
  exists r p,
    find_nearest system target name = Ok r /\
    range_start <= r < range_end /\
    position_at system r = Ok p /\
    forall k pk, range_start <= k < range_end -> position_at system k = Ok pk ->
                 distance_lt (distance pk target) (distance p target) = false.
Proof.
  intros Hirr Htrans Hrange H0 Hlt Hend. unfold find_nearest. rewrite Hrange. cbn [bind].
  destruct (position_at_inside system range_start ltac:(lia)) as [first Hfirst].
  rewrite Hfirst. cbn [bind].
  destruct (find_nearest_loop_nearest system target range_start Hirr Htrans
              (Z.to_nat (range_end - (range_start + 1))) (range_start + 1)
              (range_start, distance first target))
    as (r & Hrun & Hr); try lia.
  - split; [cbn; lia|]. split; [exists first; split; [exact Hfirst | reflexivity]|].
    cbn [snd]. intros k pk Hk Hpk. replace k with range_start in Hpk by lia.
    rewrite Hfirst in Hpk. injection Hpk as <-. apply Hirr.
  - rewrite Hrun. cbn [bind].
    replace (range_start + 1 + Z.of_nat (Z.to_nat (range_end - (range_start + 1))))
      with range_end in Hr by lia.
    destruct Hr as (Hin & (p & Hp & Hd) & Hmin).
    exists (fst r), p. repeat split; try lia; try assumption.
    intros k pk Hk Hpk. rewrite <- Hd. apply (Hmin k pk); assumption.
Qed.

(** In a range of sites inside the system, [find_nearest] returns a site of
    the range that no site of the range is nearer to the target than,
    provided [<] on distances is irreflexive and transitive. *)
Theorem find_nearest_is_nearest (system : System) (target : Cartesian) (name : string)
    (range_start range_end : Z) :
  (forall x, distance_lt x x = false) ->
  (forall x y z, distance_lt x y = true -> distance_lt y z = true -> distance_lt x z = true) ->
  find_nearest_range system name = Ok (range_start, range_end) ->
  0 <= range_start -> range_start < range_end -> range_end <= num_sites system ->
  exists r p,
    find_nearest system target name = Ok r /\
    range_start <= r < range_end /\
    position_at system r = Ok p /\
    forall k pk, range_start <= k < range_end -> position_at system k = Ok pk ->
                 distance_lt (distance pk target) (distance p target) = false.
Proof. apply find_nearest_in_range. Qed.

(** On a system built by the constructor, [find_nearest] without a
    sublattice name does not fail: it returns the index of a site, and no
    site is nearer to the target. *)
Theorem find_nearest_on_constructed_system f symmetry gens (system : System)
    (target : Cartesian) :
  (forall x, distance_lt x x = false) ->
  (forall x y z, distance_lt x y = true -> distance_lt y z = true -> distance_lt x z = true) ->
  System_new f symmetry gens = Ok system ->
  exists r p,
    find_nearest system target EmptyString = Ok r /\
    0 <= r < num_sites system /\
    position_at system r = Ok p /\
    forall k pk, position_at system k = Ok pk ->
                 distance_lt (distance pk target) (distance p target) = false.
Proof.
  intros Hirr Htrans Hnew.
  apply SysContent.System_new_populated in Hnew as [_ Hn].
  assert (Hpos : 0 < num_sites system) by (unfold num_sites in *; lia).
  destruct (find_nearest_in_range system target EmptyString 0 (num_sites system)
              Hirr Htrans eq_refl ltac:(lia) Hpos ltac:(lia)) as (r & p & Hrun & Hr & Hp & Hmin).
  exists r, p. repeat split; try lia; try assumption.
  intros k pk Hpk. apply (Hmin k pk); [|exact Hpk].
  unfold position_at in Hpk. destruct (k <? 0) eqn:Hk; [discriminate|].
  apply Z.ltb_ge in Hk.
  destruct (positions system !! Z.to_nat k) eqn:Hlook; [|discriminate].
  apply lookup_lt_Some in Hlook. unfold num_sites. lia.
Qed.

(** With a sublattice name, [find_nearest] searches the first compressed
    sublattice that has the alias of the name, and throws
    [std::runtime_error] when there is none. *)
Theorem find_nearest_range_of_name (system : System) (name : string) (target_id : Z) :
  name <> EmptyString ->
  sublattice_alias_id (lattice system) name = Ok target_id ->
  match find_nearest_range system name with
  | Ok range =>
      exists before sub after,
        sublattices (compressed_sublattices system) = before ++ sub :: after /\
        (forall s, In s before -> alias_id s <> target_id) /\
        alias_id sub = target_id /\
        range = (sys_start sub, sys_end sub)
  | Throw e =>
      e = runtime_error "System::find_nearest() This should never happen" /\
      (forall s, In s (sublattices (compressed_sublattices system)) -> alias_id s <> target_id) /\
      forall target, find_nearest system target name = Throw e
  end.
Proof.
  intros Hname Hid. unfold find_nearest, find_nearest_range.
  destruct name as [|c name]; [congruence|]. rewrite Hid. cbn [bind].
  induction (sublattices (compressed_sublattices system)) as [|sub l IH]; cbn [List.find].
  - repeat split. intros s [].
  - destruct (alias_id sub =? target_id) eqn:Ha.
    + apply Z.eqb_eq in Ha. exists [], sub, l. repeat split; try assumption. intros s [].
    + apply Z.eqb_neq in Ha.
      destruct (List.find _ l) as [sub'|].
      * destruct IH as (before & sub'' & after & -> & Hbefore & Hsub & Hrange).
        exists (sub :: before), sub'', after. repeat split; try assumption.
        intros s [<- | Hs]; [exact Ha | apply Hbefore; exact Hs].
      * destruct IH as (_ & Hnone & _). repeat split.
        intros s [<- | Hs]; [exact Ha | apply Hnone; exact Hs].
Qed.

End Facts.

(** The theorems above on the chain. *)
Lemma to_hamiltonian_index_increasing_witness :
  exists hi hj,
    to_hamiltonian_index (G := ChainGeometry.geometry) ChainGeometry.system2x2 0 = Ok hi /\
    to_hamiltonian_index (G := ChainGeometry.geometry) ChainGeometry.system2x2 1 = Ok hj /\
    0 <= hi /\ hi < hj /\
    hj < hamiltonian_size (G := ChainGeometry.geometry) ChainGeometry.system2x2.
Proof.
  apply (to_hamiltonian_index_increasing (G := ChainGeometry.geometry)
           ChainGeometry.system2x2 0 1); cbn; lia.
Defined.

Lemma chain_distance_irreflexive : forall x : Z, Z.ltb x x = false.
Proof. intros x. apply Z.ltb_irrefl. Qed.

Lemma chain_distance_transitive :
  forall x y z : Z, Z.ltb x y = true -> Z.ltb y z = true -> Z.ltb x z = true.
Proof. intros x y z H1 H2. apply Z.ltb_lt in H1, H2. apply Z.ltb_lt. lia. Qed.

(** [find_nearest_is_nearest]: the three sites of the chain searched for the
    nearest to the position 1: the loop makes two passes, the first one
    replaces site 0 by site 1 and the second one keeps it. *)
Lemma find_nearest_is_nearest_witness :
  find_nearest_range (G := ChainGeometry.geometry) ChainGeometry.system3 EmptyString
  = Ok (0, 3) /\
  find_nearest (G := ChainGeometry.geometry) ChainGeometry.system3 1 EmptyString = Ok 1 /\
  exists r p,
    find_nearest (G := ChainGeometry.geometry) ChainGeometry.system3 1 EmptyString = Ok r /\
    0 <= r < 3 /\
    position_at ChainGeometry.system3 r = Ok p /\
    forall k pk, 0 <= k < 3 -> position_at ChainGeometry.system3 k = Ok pk ->
                 Z.ltb (Z.abs (pk - 1)) (Z.abs (p - 1)) = false.
Proof.
  split; [reflexivity|]. split; [reflexivity|].
  apply (find_nearest_is_nearest (G := ChainGeometry.geometry) ChainGeometry.system3 1
           EmptyString 0 3
           chain_distance_irreflexive chain_distance_transitive eq_refl);
    vm_compute; first [reflexivity | discriminate].
Defined.

Lemma find_nearest_on_constructed_system_witness :
  exists system r,
    System_new (K := Chain.collaborators) Chain.three_sites true ["t"%string] = Ok system /\
    find_nearest (G := ChainGeometry.geometry) system 5 EmptyString = Ok r /\
    0 <= r < num_sites system.
Proof.
  destruct (System_new (K := Chain.collaborators) Chain.three_sites true ["t"%string])
    as [system|e] eqn:Hnew; [|vm_compute in Hnew; discriminate].
  destruct (find_nearest_on_constructed_system (G := ChainGeometry.geometry)
              Chain.three_sites true ["t"%string] system 5
              chain_distance_irreflexive chain_distance_transitive Hnew)
    as (r & p & Hrun & Hr & _).
  exists system, r. split; [reflexivity|]. split; assumption.
Defined.

Lemma find_nearest_range_of_name_witness :
  find_nearest (G := ChainGeometry.geometry) ChainGeometry.system3 2 "B"
  = Throw (runtime_error "System::find_nearest() This should never happen").
Proof.
  pose proof (find_nearest_range_of_name (G := ChainGeometry.geometry)
                ChainGeometry.system3 "B" 1 ltac:(discriminate) eq_refl) as H.
  cbn in H. destruct H as (_ & _ & H). exact (H 2).
Defined.

End SysQueryFacts.

(** ** How the operations of a strategy compose *)

Module KpmCompose.
Import Cpp Kpm KpmFacts KpmViews.

Section Compose.
Context {K : Collaborators} {E : Engine}.

(** *** Replacing the Hamiltonian *)

(** An accepted [change_hamiltonian] depends on the strategy only through
    its configuration and its statistics: the Hamiltonian held before, the
    bounds computed for it and the optimized Hamiltonian that queries left
    have no influence on the strategy after the call. *)
Theorem change_hamiltonian_forgets (this1 this2 : Strategy) (h : Hamiltonian) :
  ham_is h = true ->
  config this1 = config this2 -> stats this1 = stats this2 ->
  change_hamiltonian this1 h = change_hamiltonian this2 h.
Proof.
  intros Hh Hc Hs. unfold change_hamiltonian. rewrite Hh. cbn [negb].
  rewrite Hc, Hs. reflexivity.
Qed.

(** Offering to a newly constructed strategy the matrix it was constructed
    with changes nothing. *)
Theorem change_hamiltonian_after_construction
    (m : SparseMatrixX) (c : Config) (this : Strategy) (h : Hamiltonian) :
  StrategyTemplate_new m c = Ok this ->
  ham_is h = true -> ham_get_shared_ptr h = m ->
  change_hamiltonian this h = (true, this).
Proof.
  unfold StrategyTemplate_new. cbv zeta.
  destruct (config_real_gt (min_energy c) (max_energy c)); [discriminate|].
  intros [= <-] Hh Hm. unfold change_hamiltonian. rewrite Hh, Hm. reflexivity.
Qed.

(** *** What the queries leave alone *)

(** No query changes the Hamiltonian or the configuration of the strategy. *)
Theorem queries_keep_hamiltonian_and_config
    (this : Strategy) (t0 t1 : time_point) (index row col : Z) (cols : list Z)
    (energy : ArrayXd) (broadening : double) :
  (let this' := snd (ldos this t0 t1 index energy broadening) in
   hamiltonian this' = hamiltonian this /\ config this' = config this) /\
  (let this' := snd (dos this t0 t1 energy broadening) in
   hamiltonian this' = hamiltonian this /\ config this' = config this) /\
  (forall v this', greens_vector this t0 t1 row cols energy broadening = Ok (v, this') ->
                   hamiltonian this' = hamiltonian this /\ config this' = config this) /\
  (forall g this', greens this t0 t1 row col energy broadening = Ok (g, this') ->
                   hamiltonian this' = hamiltonian this /\ config this' = config this).
Proof.
  assert (Hvector : forall cols v this',
             greens_vector this t0 t1 row cols energy broadening = Ok (v, this') ->
             hamiltonian this' = hamiltonian this /\ config this' = config this).
  { intros cs v this'. unfold greens_vector.
    destruct cs as [|c cs]; [discriminate|].
    destruct (scaling_factors (bounds this)) as [scale bounds']. cbv zeta.
    destruct (is_diagonal _); intros [= _ <-]; split; reflexivity. }
  cbv zeta. split; [|split; [|split]].
  - unfold ldos. destruct (scaling_factors (bounds this)) as [scale bounds'].
    split; reflexivity.
  - rewrite dos_unfold. unfold dos_with_moments.
    destruct (scaling_factors (bounds this)) as [scale bounds']. split; reflexivity.
  - apply Hvector.
  - intros g this'. unfold greens.
    destruct (greens_vector this t0 t1 row [col] energy broadening) as [[v s]|e] eqn:Hv;
      cbn [bind fst snd]; [|discriminate].
    destruct (front v); cbn [bind]; [|discriminate].
    intros [= _ <-]. apply (Hvector _ _ _ Hv).
Qed.

(** The accumulated statistics have no influence on the value a query
    returns, nor on whether [greens_vector] throws. *)
Theorem query_values_ignore_stats
    (this : Strategy) (st : Stats) (t0 t1 : time_point) (index row : Z) (cols : list Z)
    (energy : ArrayXd) (broadening : double) :
  fst (ldos (with_stats st this) t0 t1 index energy broadening)
  = fst (ldos this t0 t1 index energy broadening) /\
  fst (dos (with_stats st this) t0 t1 energy broadening)
  = fst (dos this t0 t1 energy broadening) /\
  value_of (greens_vector (with_stats st this) t0 t1 row cols energy broadening)
  = value_of (greens_vector this t0 t1 row cols energy broadening).
Proof.
  split; [|split].
  - apply ldos_ignores_stats.
  - rewrite !dos_unfold. unfold dos_with_moments, rescaled_num_moments, with_stats.
    cbn [after_query bounds config optimized_hamiltonian stats].
    destruct (scaling_factors (bounds this)) as [scale bounds']. reflexivity.
  - unfold greens_vector, with_stats, value_of.
    cbn [after_query bounds config optimized_hamiltonian stats].
    destruct cols as [|c cs]; [reflexivity|].
    destruct (scaling_factors (bounds this)) as [scale bounds']. cbv zeta.
    destruct (is_diagonal _); reflexivity.
Qed.

(** *** Density of states *)

(** With [num_random <= 0] the loop of [dos] is not entered: no random
    starter is drawn and no moment computed, and the array handed to the
    kernel is that of the new moments object divided by [num_random]
    (a division by zero for [num_random = 0]). *)
Theorem dos_without_realization
    (this : Strategy) (t0 t1 : time_point) (energy : ArrayXd) (broadening : double) :
  num_random (config this) <= 0 ->
  let c := config this in
  let scale := fst (scaling_factors (bounds this)) in
  let fresh := diagonal_get (DiagonalMoments_new (rescaled_num_moments this broadening)) in
  fst (dos this t0 t1 energy broadening)
  = reconstruct
      (array_real (kernel_apply (kernel c) (array_div fresh (real_of_int (num_random c)))))
      energy scale.
Proof.
  intros Hn. cbv zeta. rewrite dos_unfold. unfold dos_with_moments.
  destruct (scaling_factors (bounds this)) as [scale bounds']. cbn [fst].
  replace (Z.to_nat (num_random (config this))) with 0%nat by lia.
  reflexivity.
Qed.

(** *** A diagonal element *)

(** When the Hamiltonian optimized for [(index, index)] reports a diagonal
    query, [greens(index, index, ...)] and [ldos(index, ...)] run the same
    moment computation: both reconstruct from the same damped moments, the
    first with [reconstruct_greens], the second from their real part, and
    they leave the strategy in the same state. *)
Theorem greens_diagonal_shares_moments_with_ldos
    (this : Strategy) (t0 t1 : time_point) (index : Z) (energy : ArrayXd) (broadening : double) :
  is_diagonal (idx (optimize_for (Indices_pair index index)
                                 (fst (scaling_factors (bounds this)))
                                 (optimized_hamiltonian this))) = true ->
  exists (damped : ArrayX) (this' : Strategy),
    ldos this t0 t1 index energy broadening
    = (reconstruct (array_real damped) energy (fst (scaling_factors (bounds this))), this') /\
    greens this t0 t1 index index energy broadening
    = Ok (reconstruct_greens damped energy (fst (scaling_factors (bounds this))), this').
Proof.
  unfold ldos, greens, greens_vector, Indices_pair.
  destruct (scaling_factors (bounds this)) as [scale bounds']. cbn [fst]. cbv zeta.
  intros ->. eexists. eexists. split; reflexivity.
Qed.

End Compose.

Section ExactEngine.
Import Exact ExactEdge.
#[local] Existing Instance Exact.collaborators.
#[local] Existing Instance Exact.engine.

(** [change_hamiltonian_forgets]: after a query, and on the untouched chain with the same stats. *)
Lemma change_hamiltonian_forgets_witness :
  change_hamiltonian (snd (ldos strategy3 10 13 1 [0; 1] 4)) (inl [[0; 3]; [3; 0]])
  = change_hamiltonian (with_stats (Build_Stats (K := collaborators) 1 3 6) strategy3) (inl [[0; 3]; [3; 0]]).
Proof.
  apply (change_hamiltonian_forgets (snd (ldos strategy3 10 13 1 [0; 1] 4))
           (with_stats (Build_Stats (K := collaborators) 1 3 6) strategy3) (inl [[0; 3]; [3; 0]]));
    reflexivity.
Defined.

(** [change_hamiltonian_after_construction] on the chain. *)
Lemma change_hamiltonian_after_construction_witness :
  exists this,
    StrategyTemplate_new (E := engine) chain3 config_auto = Ok this /\
    change_hamiltonian this (inl chain3) = (true, this).
Proof.
  eexists. split; [reflexivity|].
  apply (change_hamiltonian_after_construction (E := engine) chain3 config_auto _ (inl chain3));
    reflexivity.
Defined.

(** [dos_without_realization]: [num_random = 0]. *)
Lemma dos_without_realization_witness :
  num_random (config strategy_no_random) <= 0 /\
  fst (dos strategy_no_random 10 13 [0; 1] 4) = [0; 0].
Proof.
  split; [cbn; lia|].
  exact (dos_without_realization strategy_no_random 10 13 [0; 1] 4 ltac:(cbn; lia)).
Defined.

(** [greens_diagonal_shares_moments_with_ldos]: the middle site of the chain. *)
Lemma greens_diagonal_shares_moments_with_ldos_witness :
  exists (damped : ArrayX) (this' : Strategy),
    ldos strategy3 10 13 1 [0; 1] 4 = (reconstruct (array_real damped) [0; 1] (2, 0), this') /\
    greens strategy3 10 13 1 1 [0; 1] 4 = Ok (reconstruct_greens damped [0; 1] (2, 0), this').
Proof.
  apply (greens_diagonal_shares_moments_with_ldos strategy3 10 13 1 [0; 1] 4). reflexivity.
Defined.

End ExactEngine.

End KpmCompose.
